(** * FoodShare: request lifecycle, chat model and realtime gateway

    A shallow embedding of the backend of the FoodShare application:

    - [models/Food.js], [models/Request.js] and the request controller
      ([createRequest], [updateStatus]);
    - [models/Chat.js] (message and chat schemas, [addMessage],
      [markAsRead], [isParticipant], [findOrCreateChat], the pre-save
      hook) and the chat routes;
    - the [send-message] handler of [config/socket.js].

    Conventions of the embedding.

    - An ObjectId value is a [nat]; [a.toString() === b.toString()] is
      equality of these numbers.  Where the code compares ObjectId
      *objects* (the [Set] of the chat pre-save hook) the object identity
      is kept next to the value, see [ObjectId].
    - A [Date] is a number of milliseconds; every operation that reads
      the clock takes the instant as an argument [now].
    - A JavaScript string is a [string] whose characters stand for code
      units below 256.
    - The database is an explicit store passed through every handler.
      A handler returns the new store together with what it sent.
    - Mongoose's schema declarations ([required], [trim], [maxlength],
      [enum], [min], [default]) are interpreted by the [cast] and
      [validate] functions of each model; [save] runs validation first
      and the schema's own pre-save hooks after it. *)

From stdpp Require Import base strings list gmap pretty.
From Stdlib Require Import ZArith Ascii.

Local Open Scope Z_scope.
Local Open Scope nat_scope.

(** ** Values shared by the models *)

Abbreviation Id := nat (only parsing).
Abbreviation Date := nat (only parsing).

(** An ObjectId object: [oid_ref] is the identity of the JavaScript
    object, [oid_hex] the twelve bytes it holds. *)
Record ObjectId := mkObjectId { oid_ref : nat; oid_hex : Id }.

Global Instance ObjectId_eq_dec : EqDecision ObjectId.
Proof. solve_decision. Defined.

(** White space removed by [String.prototype.trim], restricted to code
    units below 256: TAB, LF, VT, FF, CR, SP and NBSP. *)
Definition isWhiteSpace (a : ascii) : bool :=
  match a with
  | "009" | "010" | "011" | "012" | "013" | " " | "160" => true
  | _ => false
  end%char.

Fixpoint trimStart (s : string) : string :=
  match s with
  | EmptyString => EmptyString
  | String a s' => if isWhiteSpace a then trimStart s' else s
  end.

Definition trimEnd (s : string) : string :=
  String.rev (trimStart (String.rev s)).

Definition trim (s : string) : string := trimEnd (trimStart s).

(** [x || dflt] on an optional string: [undefined] and the empty string
    are falsy. *)
Definition orDefault (x : option string) (dflt : string) : string :=
  match x with
  | Some s => if bool_decide (s = "") then dflt else s
  | None => dflt
  end.

(** Modelled from the spec: [middleware/errorHandler.js] ([AppError],
    [asyncHandler]) is not among the sources.  An [AppError] carries its
    message and the status of the response; [asyncHandler] hands whatever
    the handler throws to [next].  The embedding stops at the error given
    to [next]. *)
Inductive Error :=
  | AppError (message : string) (statusCode : nat)
  | ValidationError (message : string)
  | JsError (message : string)
  | TypeError.

(** ** models/Food.js *)

Module Food.

Inductive Status := available | requested | claimed | expired | cancelled.

Global Instance Status_eq_dec : EqDecision Status.
Proof. solve_decision. Defined.

Record Availability := mkAvailability {
  pickupStart : Date;
  pickupEnd : Date;
  expiryTime : Date;
  isAvailable : bool
}.

Record t := mk {
  donor : Id;
  availability : Availability;
  status : Status;
  isActive : bool
}.

Definition set_status (st : Status) (f : t) : t :=
  mk (donor f) (availability f) st (isActive f).

Definition set_isAvailable (b : bool) (f : t) : t :=
  let a := availability f in
  mk (donor f) (mkAvailability (pickupStart a) (pickupEnd a) (expiryTime a) b)
     (status f) (isActive f).

(** [foodSchema.virtual('isExpired')] *)
Definition isExpired (now : Date) (f : t) : bool :=
  bool_decide (expiryTime (availability f) < now).

(** [foodSchema.virtual('pickupStatus')] *)
Definition pickupStatus (now : Date) (f : t) : string :=
  let start := pickupStart (availability f) in
  let end_ := pickupEnd (availability f) in
  if bool_decide (now < start) then "upcoming"
  else if bool_decide (start ≤ now) && bool_decide (now ≤ end_)
       then "available"
       else "expired".

(** [foodSchema.virtual('timeRemaining')]; the difference of two dates
    is an integer number of milliseconds. *)
Definition timeRemaining (now : Date) (f : t) : string :=
  let diff := (Z.of_nat (pickupEnd (availability f)) - Z.of_nat now)%Z in
  if bool_decide (diff ≤ 0)%Z then "Expired"
  else
    let hours := (diff / (1000 * 60 * 60))%Z in
    let minutes := (diff `mod` (1000 * 60 * 60) / (1000 * 60))%Z in
    if bool_decide (0 < hours)%Z
    then pretty hours +:+ "h " +:+ pretty minutes +:+ "m remaining"
    else pretty minutes +:+ "m remaining".

End Food.

(** ** models/Request.js *)

Module Request.

Inductive Status := pending | accepted | rejected | cancelled | completed.

Global Instance Status_eq_dec : EqDecision Status.
Proof. solve_decision. Defined.

Inductive CancelledBy := donor_party | receiver_party | system_party.

Record Quantity := mkQuantity { amount : Z; unit : string }.

Record PickupDetails := mkPickupDetails {
  preferredTime : option Date;
  alternativeTime : option Date;
  specialInstructions : option string
}.

Record DonorResponse := mkDonorResponse {
  dr_message : string;
  respondedAt : Date;
  proposedPickupTime : option Date
}.

Record ActualPickup := mkActualPickup {
  pickedUpAt : Date;
  actualQuantity : Quantity;
  notes : string
}.

Record Cancellation := mkCancellation {
  reason : string;
  cancelledBy : CancelledBy;
  cancelledAt : Date
}.

Record t := mk {
  foodItem : Id;
  donor : Id;
  receiver : Id;
  status : Status;
  message : option string;
  requestedQuantity : Quantity;
  pickupDetails : PickupDetails;
  donorResponse : option DonorResponse;
  actualPickup : option ActualPickup;
  cancellation : option Cancellation;
  isActive : bool
}.

Definition units : list string :=
  ["servings"; "pieces"; "kg"; "grams"; "liters"; "packets"; "other"].

(** The fields [Request.create] receives from the controller. *)
Record Fields := mkFields {
  f_foodItem : Id;
  f_donor : Id;
  f_receiver : Id;
  f_message : option string;
  f_requestedQuantity : Quantity;
  f_pickupDetails : PickupDetails
}.

(** Casting applies the setters ([trim]) and the defaults
    ([status: 'pending'], [isActive: true]). *)
Definition cast (x : Fields) : t :=
  mk (f_foodItem x) (f_donor x) (f_receiver x) pending
     (trim <$> f_message x) (f_requestedQuantity x) (f_pickupDetails x)
     None None None true.

(** The schema validators: [maxlength] 500 on the message, [min] 1 on
    the amount, the unit [enum], the required preferred time. *)
Definition validate (r : t) : bool :=
  match message r with
  | Some m => bool_decide (String.length m ≤ 500)
  | None => true
  end
  && bool_decide (1 ≤ amount (requestedQuantity r))%Z
  && bool_decide (unit (requestedQuantity r) ∈ units)
  && bool_decide (is_Some (preferredTime (pickupDetails r))).

Definition set_status (st : Status) (r : t) : t :=
  mk (foodItem r) (donor r) (receiver r) st (message r)
     (requestedQuantity r) (pickupDetails r) (donorResponse r)
     (actualPickup r) (cancellation r) (isActive r).

Definition set_donorResponse (d : DonorResponse) (r : t) : t :=
  mk (foodItem r) (donor r) (receiver r) (status r) (message r)
     (requestedQuantity r) (pickupDetails r) (Some d)
     (actualPickup r) (cancellation r) (isActive r).

Definition set_actualPickup (a : ActualPickup) (r : t) : t :=
  mk (foodItem r) (donor r) (receiver r) (status r) (message r)
     (requestedQuantity r) (pickupDetails r) (donorResponse r)
     (Some a) (cancellation r) (isActive r).

Definition set_cancellation (c : Cancellation) (r : t) : t :=
  mk (foodItem r) (donor r) (receiver r) (status r) (message r)
     (requestedQuantity r) (pickupDetails r) (donorResponse r)
     (actualPickup r) (Some c) (isActive r).

(** [requestSchema.methods.accept]: no look at the current status. *)
Definition accept (now : Date) (msg : option string)
    (proposed : option Date) (r : t) : t :=
  set_donorResponse
    (mkDonorResponse (orDefault msg "Request accepted") now
       (match proposed with
        | Some p => Some p
        | None => preferredTime (pickupDetails r)
        end))
    (set_status accepted r).

(** [requestSchema.methods.reject] *)
Definition reject (now : Date) (msg : option string) (r : t) : t :=
  set_donorResponse
    (mkDonorResponse (orDefault msg "Request rejected") now None)
    (set_status rejected r).

(** [requestSchema.methods.cancel] *)
Definition cancel (now : Date) (why : option string)
    (who : option CancelledBy) (r : t) : t :=
  set_cancellation
    (mkCancellation (orDefault why "Request cancelled")
       (default receiver_party who) now)
    (set_status cancelled r).

(** [requestSchema.methods.markPickedUp] *)
Definition markPickedUp (now : Date) (actual : option Quantity)
    (note : option string) (r : t) : t :=
  set_actualPickup
    (mkActualPickup now (default (requestedQuantity r) actual)
       (orDefault note ""))
    (set_status completed r).

(** The filter [{ foodItem: id, status: { $in: ['pending', 'accepted'] } }]. *)
Definition isActiveFor (fid : Id) (r : t) : bool :=
  bool_decide (foodItem r = fid)
  && (bool_decide (status r = pending) || bool_decide (status r = accepted)).

Definition isAcceptedFor (fid : Id) (r : t) : bool :=
  bool_decide (foodItem r = fid) && bool_decide (status r = accepted).

(** [requestSchema.virtual('timeUntilPickup')]; [None] is [null]. *)
Definition timeUntilPickup (now : Date) (r : t) : option string :=
  match preferredTime (pickupDetails r) with
  | None => None
  | Some pickupTime =>
    let diff := (Z.of_nat pickupTime - Z.of_nat now)%Z in
    if bool_decide (diff ≤ 0)%Z then Some "Overdue"
    else
      let days := (diff / (1000 * 60 * 60 * 24))%Z in
      let hours :=
        (diff `mod` (1000 * 60 * 60 * 24) / (1000 * 60 * 60))%Z in
      let minutes := (diff `mod` (1000 * 60 * 60) / (1000 * 60))%Z in
      if bool_decide (0 < days)%Z
      then Some (pretty days +:+ "d " +:+ pretty hours +:+ "h remaining")
      else if bool_decide (0 < hours)%Z
      then Some (pretty hours +:+ "h " +:+ pretty minutes +:+ "m remaining")
      else Some (pretty minutes +:+ "m remaining")
  end.

(** [requestSchema.virtual('isOverdue')] *)
Definition isOverdue (now : Date) (r : t) : bool :=
  match preferredTime (pickupDetails r) with
  | None => false
  | Some pickupTime => bool_decide (pickupTime < now)
  end.

End Request.

(** ** controllers/requestController.js *)

Module RequestController.

(** The two collections.  A request's id is its position in the
    collection; [Request.create] appends. *)
Record Store := mkStore {
  foods : gmap Id Food.t;
  requests : list Request.t
}.

Inductive Response :=
  | Json (code : nat) (data : Request.t)
  | Next (e : Error).

Record Body := mkBody {
  b_foodItem : Id;
  b_message : option string;
  b_requestedQuantity : Request.Quantity;
  b_pickupDetails : Request.PickupDetails
}.

Definition countDocuments (q : Request.t → bool) (l : list Request.t) : nat :=
  length (List.filter q l).

(** The object literal [createRequest] passes to [Request.create]. *)
Definition createFields (food : Food.t) (user : Id) (body : Body)
    : Request.Fields :=
  Request.mkFields (b_foodItem body) (Food.donor food) user
    (b_message body) (b_requestedQuantity body) (b_pickupDetails body).

(** [createRequest] *)
Definition createRequest (s : Store) (user : Id) (body : Body)
    : Store * Response :=
  match foods s !! b_foodItem body with
  | None => (s, Next (AppError "Food item not available" 400))
  | Some food =>
    if negb (Food.isActive food)
       || negb (bool_decide (Food.status food = Food.available))
    then (s, Next (AppError "Food item not available" 400))
    else
      let request := Request.cast (createFields food user body) in
      if negb (Request.validate request)
      then (s, Next (ValidationError "Request validation failed"))
      else
        (mkStore
           (<[b_foodItem body := Food.set_status Food.requested food]> (foods s))
           (requests s ++ [request]),
         Json 201 request)
  end.

(** The listing update at the end of [updateStatus], once the request
    has been saved into [s]. *)
Definition updateFood (s : Store) (status : string) (request : Request.t)
    : Store * Response :=
  if bool_decide (status = "accepted") then
    match foods s !! Request.foodItem request with
    | None => (s, Next TypeError)
    | Some food =>
      (mkStore
         (<[Request.foodItem request :=
              Food.set_isAvailable false (Food.set_status Food.claimed food)]>
            (foods s))
         (requests s),
       Json 200 request)
    end
  else if bool_decide (status = "cancelled") || bool_decide (status = "rejected") then
    match foods s !! Request.foodItem request with
    | None => (s, Next TypeError)
    | Some food =>
      let active :=
        countDocuments (Request.isActiveFor (Request.foodItem request))
          (requests s) in
      if bool_decide (active = 0) then
        (mkStore
           (<[Request.foodItem request :=
                Food.set_isAvailable true (Food.set_status Food.available food)]>
              (foods s))
           (requests s),
         Json 200 request)
      else (s, Json 200 request)
    end
  else (s, Json 200 request).

(** The listing as the revert branch of [updateStatus] writes it. *)
Definition reopened (food : Food.t) : Food.t :=
  Food.set_isAvailable true (Food.set_status Food.available food).

Definition saveRequest (s : Store) (id : Id) (r : Request.t) : Store :=
  mkStore (foods s) (<[id := r]> (requests s)).

(** [updateStatus] *)
Definition updateStatus (s : Store) (now : Date) (user : Id) (id : Id)
    (status : string) (message : option string) : Store * Response :=
  match requests s !! id with
  | None => (s, Next (AppError "Request not found" 404))
  | Some request =>
    let isDonor := bool_decide (Request.donor request = user) in
    let isReceiver := bool_decide (Request.receiver request = user) in
    if bool_decide (status = "accepted") then
      if negb isDonor then (s, Next (AppError "Only donor can accept" 403))
      else
        let request' := Request.accept now message None request in
        updateFood (saveRequest s id request') status request'
    else if bool_decide (status = "rejected") then
      if negb isDonor then (s, Next (AppError "Only donor can reject" 403))
      else
        let request' := Request.reject now message request in
        updateFood (saveRequest s id request') status request'
    else if bool_decide (status = "cancelled") then
      if negb isReceiver && negb isDonor
      then (s, Next (AppError "Not authorized to cancel" 403))
      else
        let request' :=
          Request.cancel now message
            (Some (if isDonor then Request.donor_party
                   else Request.receiver_party))
            request in
        updateFood (saveRequest s id request') status request'
    else if bool_decide (status = "completed") then
      if negb isDonor then (s, Next (AppError "Only donor can complete" 403))
      else
        let request' := Request.markPickedUp now None None request in
        updateFood (saveRequest s id request') status request'
    else (s, Next (AppError "Invalid status" 400))
  end.

(** *** Sequences of lifecycle operations *)

Inductive Op :=
  | OpCreate (user : Id) (body : Body)
  | OpUpdate (now : Date) (user : Id) (id : Id) (status : string)
      (message : option string).

Definition step (s : Store) (o : Op) : Store :=
  match o with
  | OpCreate user body => (createRequest s user body).1
  | OpUpdate now user id status message =>
      (updateStatus s now user id status message).1
  end.

Definition exec (s : Store) (ops : list Op) : Store := foldl step s ops.

(** The operations that can reach the revert branch of [updateStatus]:
    an update whose status is [rejected] or [cancelled]. *)
Definition reopens (o : Op) : bool :=
  match o with
  | OpUpdate _ _ _ status _ =>
      bool_decide (status = "rejected") || bool_decide (status = "cancelled")
  | OpCreate _ _ => false
  end.

(** A store whose listings have no request yet. *)
Definition fresh (fs : gmap Id Food.t) : Store := mkStore fs [].

Definition countAccepted (s : Store) (fid : Id) : nat :=
  countDocuments (Request.isAcceptedFor fid) (requests s).

Definition countActive (s : Store) (fid : Id) : nat :=
  countDocuments (Request.isActiveFor fid) (requests s).

(** The caller's discipline the code itself does not check: an
    [accepted] update names a request that is still pending (or no
    request at all). *)
Definition acceptsPending (s : Store) (o : Op) : Prop :=
  match o with
  | OpUpdate _ _ id status _ =>
      status = "accepted" →
      ∀ r, requests s !! id = Some r → Request.status r = Request.pending
  | OpCreate _ _ => True
  end.

Inductive reachable (s0 : Store) : Store → Prop :=
  | reachable_init : reachable s0 s0
  | reachable_step s o :
      reachable s0 s → acceptsPending s o → reachable s0 (step s o).

(** The invariant carried along a run: a listing has at most one
    active request, and none while it is [available]. *)
Definition lifecycleInv (s : Store) : Prop :=
  ∀ fid,
    countActive s fid ≤ 1 ∧
    ∀ food, foods s !! fid = Some food →
            Food.status food = Food.available → countActive s fid = 0.

End RequestController.

(** ** models/Chat.js *)

Module Chat.

Definition messageTypes : list string := ["text"; "image"; "location"; "file"].

Record Message := mkMessage {
  sender : Id;
  content : string;
  messageType : string;
  mediaUrl : option string;
  mediaCaption : option string;
  isRead : bool;
  readAt : option Date;
  timestamp : Date
}.

(** The plain object handed to [messages.push] or to [lastMessage]. *)
Record MessageFields := mkMessageFields {
  f_sender : Id;
  f_content : string;
  f_messageType : option string;
  f_mediaUrl : option string;
  f_mediaCaption : option string;
  f_timestamp : option Date
}.

(** Casting a plain object to a message subdocument: the [trim] setter
    on [content], the defaults of [messageType], [isRead] and
    [timestamp]. *)
Definition castMessage (now : Date) (x : MessageFields) : Message :=
  mkMessage (f_sender x) (trim (f_content x))
    (default "text" (f_messageType x))
    (f_mediaUrl x) (f_mediaCaption x) false None
    (default now (f_timestamp x)).

(** [required] and [maxlength] on [content], [enum] on [messageType]. *)
Definition validateMessage (m : Message) : bool :=
  negb (bool_decide (content m = ""))
  && bool_decide (String.length (content m) ≤ 1000)
  && bool_decide (messageType m ∈ messageTypes).

Record t := mk {
  participants : list ObjectId;
  foodItem : option Id;
  messages : list Message;
  lastMessage : option Message;
  unreadCount : gmap Id nat;
  isActive : bool;
  lastActivity : Date
}.

Definition validate (c : t) : bool :=
  bool_decide (is_Some (foodItem c))
  && forallb validateMessage (messages c)
  && from_option validateMessage true (lastMessage c).

Definition set_participants (ps : list ObjectId) (c : t) : t :=
  mk ps (foodItem c) (messages c) (lastMessage c) (unreadCount c)
     (isActive c) (lastActivity c).

Definition set_messages (ms : list Message) (c : t) : t :=
  mk (participants c) (foodItem c) ms (lastMessage c) (unreadCount c)
     (isActive c) (lastActivity c).

Definition set_lastMessage (m : Message) (c : t) : t :=
  mk (participants c) (foodItem c) (messages c) (Some m) (unreadCount c)
     (isActive c) (lastActivity c).

Definition set_unreadCount (u : gmap Id nat) (c : t) : t :=
  mk (participants c) (foodItem c) (messages c) (lastMessage c) u
     (isActive c) (lastActivity c).

Definition set_lastActivity (d : Date) (c : t) : t :=
  mk (participants c) (foodItem c) (messages c) (lastMessage c)
     (unreadCount c) (isActive c) d.

(** [[...new Set(xs)]] on ObjectId objects: a [Set] holds objects by
    identity, and keeps the first occurrence of each. *)
Fixpoint newSet (seen xs : list ObjectId) : list ObjectId :=
  match xs with
  | [] => []
  | x :: xs' =>
    if bool_decide (x ∈ seen) then newSet seen xs'
    else x :: newSet (x :: seen) xs'
  end.

(** [chatSchema.pre('save')] *)
Definition preSave (c : t) : Error + t :=
  if bool_decide (length (participants c) < 2) then
    inl (JsError "Chat must have at least 2 participants")
  else
    let uniqueParticipants := newSet [] (participants c) in
    if bool_decide (length uniqueParticipants ≠ length (participants c))
    then inr (set_participants uniqueParticipants c)
    else inr c.

(** [this.save()]: validation, then the pre-save hook; the result is
    the document as stored. *)
Definition save (c : t) : Error + t :=
  if validate c then preSave c
  else inl (ValidationError "Chat validation failed").

Record MediaData := mkMediaData {
  md_mediaUrl : option string;
  md_mediaCaption : option string
}.

Definition bumpUnread (senderId : Id) (u : gmap Id nat) (p : ObjectId)
    : gmap Id nat :=
  if bool_decide (oid_hex p ≠ senderId)
  then <[oid_hex p := default 0 (u !! oid_hex p) + 1]> u
  else u.

(** [chatSchema.methods.addMessage] *)
Definition addMessage (now : Date) (senderId : Id) (content : string)
    (messageType : option string) (mediaData : MediaData) (c : t)
    : Error + t :=
  let message :=
    castMessage now
      (mkMessageFields senderId content (Some (default "text" messageType))
         (md_mediaUrl mediaData) (md_mediaCaption mediaData) None) in
  let c1 := set_messages (messages c ++ [message]) c in
  let c2 := set_lastMessage message c1 in
  let c3 := set_lastActivity now c2 in
  let c4 :=
    set_unreadCount
      (foldl (bumpUnread senderId) (unreadCount c3) (participants c3)) c3 in
  save c4.

Definition markRead (now : Date) (userId : Id) (m : Message) : Message :=
  if negb (isRead m) && bool_decide (sender m ≠ userId)
  then mkMessage (sender m) (content m) (messageType m) (mediaUrl m)
         (mediaCaption m) true (Some now) (timestamp m)
  else m.

(** [chatSchema.methods.markAsRead] *)
Definition markAsRead (now : Date) (userId : Id) (c : t) : Error + t :=
  let c1 := set_messages (markRead now userId <$> messages c) c in
  let c2 := set_unreadCount (<[userId := 0]> (unreadCount c1)) c1 in
  save c2.

(** [chatSchema.methods.getUnreadCount] *)
Definition getUnreadCount (userId : Id) (c : t) : nat :=
  default 0 (unreadCount c !! userId).

(** [chatSchema.methods.isParticipant] *)
Definition isParticipant (userId : Id) (c : t) : bool :=
  existsb (λ participant, bool_decide (oid_hex participant = userId))
    (participants c).

(** A document as [findById] hands it over: hydration builds one
    ObjectId object per array element, so no object occurs twice. *)
Definition hydrated (c : t) : Prop := NoDup (participants c).

(** A hydrated document that passes validation and has its two
    participants or more. *)
Definition wellFormed (c : t) : Prop :=
  validate c = true ∧ 2 ≤ length (participants c) ∧ hydrated c.

(** Content that passes [required] and [maxlength] once trimmed. *)
Definition sendable (content : string) : Prop :=
  trim content ≠ "" ∧ String.length (trim content) ≤ 1000.

(** The chat collection; a chat's id is its position. *)
Abbreviation Collection := (list t) (only parsing).

Definition matchesAll (p1 p2 : Id) (fid : Id) (c : t) : bool :=
  bool_decide (p1 ∈ oid_hex <$> participants c)
  && bool_decide (p2 ∈ oid_hex <$> participants c)
  && bool_decide (foodItem c = Some fid).

(** [new Chat(...)] with the schema defaults for what is left out. *)
Definition new (now : Date) (ps : list ObjectId) (fid : option Id) : t :=
  mk ps fid [] None ∅ true now.

(** [chatSchema.statics.findOrCreateChat]: the collection afterwards
    and, unless the save failed, the chat's id and the chat. *)
Definition findOrCreateChat (chats : Collection) (now : Date)
    (participant1Id participant2Id : ObjectId) (foodItemId : Id)
    : Collection * (Error + (Id * t)) :=
  match list_find
          (λ c, Is_true (matchesAll (oid_hex participant1Id)
                           (oid_hex participant2Id) foodItemId c)) chats with
  | Some (id, chat) => (chats, inr (id, chat))
  | None =>
    match save (new now [participant1Id; participant2Id] (Some foodItemId)) with
    | inl e => (chats, inl e)
    | inr chat => (chats ++ [chat], inr (length chats, chat))
    end
  end.

(** How often a user occurs in the participant list. *)
Definition occurrences (userId : Id) (c : t) : nat :=
  length (List.filter (λ p, bool_decide (oid_hex p = userId)) (participants c)).

(** The unread messages of the log that others sent to [userId]. *)
Definition unseen (userId : Id) (m : Message) : bool :=
  negb (isRead m) && bool_decide (sender m ≠ userId).

Definition unseenBy (userId : Id) (c : t) : nat :=
  length (List.filter (unseen userId) (messages c)).

End Chat.

(** ** routes/chat.js *)

Module ChatRoutes.

Inductive Response :=
  | Sent (code : nat)
  | Next (e : Error).

Record MessageBody := mkMessageBody {
  b_content : string;
  b_messageType : option string;
  b_mediaUrl : option string;
  b_mediaCaption : option string
}.

(** [POST /:id/messages] *)
Definition postMessage (chats : Chat.Collection) (now : Date) (user : Id)
    (id : Id) (body : MessageBody) : Chat.Collection * Response :=
  match chats !! id with
  | None => (chats, Next (AppError "Chat not found" 404))
  | Some chat =>
    if negb (Chat.isParticipant user chat)
    then (chats, Next (AppError "Not authorized" 403))
    else
      match Chat.addMessage now user (b_content body) (b_messageType body)
              (Chat.mkMediaData (b_mediaUrl body) (b_mediaCaption body))
              chat with
      | inl e => (chats, Next e)
      | inr chat' => (<[id := chat']> chats, Sent 201)
      end
  end.

(** [PUT /:id/read] *)
Definition putRead (chats : Chat.Collection) (now : Date) (user : Id)
    (id : Id) : Chat.Collection * Response :=
  match chats !! id with
  | None => (chats, Next (AppError "Chat not found" 404))
  | Some chat =>
    if negb (Chat.isParticipant user chat)
    then (chats, Next (AppError "Not authorized" 403))
    else
      match Chat.markAsRead now user chat with
      | inl e => (chats, Next e)
      | inr chat' => (<[id := chat']> chats, Sent 200)
      end
  end.

Inductive MessagesResponse :=
  | Messages (data : list Chat.Message)
  | Refused (e : Error).

(** [GET /:id/messages] *)
Definition getMessages (chats : Chat.Collection) (user : Id) (id : Id)
    : MessagesResponse :=
  match chats !! id with
  | None => Refused (AppError "Chat not found" 404)
  | Some chat =>
    if negb (Chat.isParticipant user chat)
    then Refused (AppError "Not authorized" 403)
    else Messages (Chat.messages chat)
  end.

(** *** Sequences of posts and reads on one chat *)

Inductive Op :=
  | OpPost (now : Date) (user : Id) (body : MessageBody)
  | OpRead (now : Date) (user : Id).

Definition step (id : Id) (chats : Chat.Collection) (o : Op)
    : Chat.Collection :=
  match o with
  | OpPost now user body => (postMessage chats now user id body).1
  | OpRead now user => (putRead chats now user id).1
  end.

(** A chat of the two users [a] and [b] whose counters agree with its
    log: every message is of [a] or [b], and each one's counter is the
    number of unread messages the other sent. *)
Definition inSync (a b : Id) (c : Chat.t) : Prop :=
  Chat.wellFormed c
  ∧ oid_hex <$> Chat.participants c = [a; b]
  ∧ a ≠ b
  ∧ Forall (λ m, Chat.sender m = a ∨ Chat.sender m = b) (Chat.messages c)
  ∧ Chat.getUnreadCount a c = Chat.unseenBy a c
  ∧ Chat.getUnreadCount b c = Chat.unseenBy b c.

End ChatRoutes.

(** ** config/socket.js *)

Module Socket.

Record User := mkUser {
  _id : ObjectId;
  name : string;
  avatar : option string;
  email : string;
  role : string
}.

(** An admitted connection: [socket.userId] is [_id (user sock)]. *)
Record t := mk { socketId : nat; user : User }.

Definition userId (sock : t) : ObjectId := _id (user sock).

(** Room names: a chat id, or a user id for the personal room. *)
Inductive Room := ChatRoom (chatId : Id) | UserRoom (uid : Id).

Global Instance Room_eq_dec : EqDecision Room.
Proof. solve_decision. Defined.

(** Who is in which room. *)
Abbreviation Rooms := (Room → gset nat) (only parsing).

Inductive Target :=
  | ToRoom (r : Room)                       (* io.to(r) *)
  | ToRoomExcept (r : Room) (self : nat)    (* socket.to(r) *)
  | ToSelf (self : nat).                    (* socket.emit *)

Definition recipients (rooms : Rooms) (tg : Target) : gset nat :=
  match tg with
  | ToRoom r => rooms r
  | ToRoomExcept r self => rooms r ∖ {[self]}
  | ToSelf self => {[self]}
  end.

Record SenderProfile := mkSenderProfile {
  sp_id : ObjectId;
  sp_name : string;
  sp_avatar : option string
}.

Record NewMessage := mkNewMessage {
  nm_chatId : Id;
  nm_sender : SenderProfile;
  nm_content : string;
  nm_timestamp : Date
}.

Inductive Event :=
  | new_message (payload : NewMessage)
  | message_notification (chatId : Id) (sender : string) (preview : string)
  | message_error (error : string).

Record SendMessage := mkSendMessage {
  chatId : Id;
  content : string;
  receiverId : Id
}.

(** The [try] block of the [send-message] handler: the collection as
    the last successful save left it, and the emissions or the
    exception.  A chat made by [new Chat] gets an id of its own. *)
Definition trySendMessage (chats : Chat.Collection) (now : Date) (sock : t)
    (data : SendMessage)
    : Chat.Collection * (Error + list (Target * Event)) :=
  let found : Chat.Collection * (Error + (Id * Chat.t)) :=
    match chats !! chatId data with
    | Some chat => (chats, inr (chatId data, chat))
    | None =>
      let chat :=
        Chat.new now
          [userId sock;
           mkObjectId (S (oid_ref (userId sock))) (receiverId data)]
          None in
      match Chat.save chat with
      | inl e => (chats, inl e)
      | inr chat' => (chats ++ [chat'], inr (length chats, chat'))
      end
    end in
  match found with
  | (chats1, inl e) => (chats1, inl e)
  | (chats1, inr (docId, chat)) =>
    let message :=
      Chat.mkMessageFields (oid_hex (userId sock)) (content data)
        None None None (Some now) in
    match Chat.save
            (Chat.set_messages
               (Chat.messages chat ++ [Chat.castMessage now message]) chat) with
    | inl e => (chats1, inl e)
    | inr chat' =>
      (<[docId := chat']> chats1,
       inr [ (ToRoom (ChatRoom (chatId data)),
              new_message
                (mkNewMessage (chatId data)
                   (mkSenderProfile (_id (user sock)) (name (user sock))
                      (avatar (user sock)))
                   (content data) now));
             (ToRoomExcept (UserRoom (receiverId data)) (socketId sock),
              message_notification (chatId data) (name (user sock))
                (String.substring 0 50 (content data))) ])
    end
  end.

(** [socket.on('send-message', ...)] *)
Definition sendMessage (chats : Chat.Collection) (now : Date) (sock : t)
    (data : SendMessage) : Chat.Collection * list (Target * Event) :=
  match trySendMessage chats now sock data with
  | (chats', inr out) => (chats', out)
  | (chats', inl _) =>
      (chats', [(ToSelf (socketId sock), message_error "Failed to send message")])
  end.

(** The message subdocument the handler pushes. *)
Definition pushed (now : Date) (sock : t) (data : SendMessage)
    : Chat.Message :=
  Chat.castMessage now
    (Chat.mkMessageFields (oid_hex (userId sock)) (content data)
       None None None (Some now)).

(** The two emissions of a successful [send-message]. *)
Definition fanOut (now : Date) (sock : t) (data : SendMessage)
    : list (Target * Event) :=
  [ (ToRoom (ChatRoom (chatId data)),
     new_message
       (mkNewMessage (chatId data)
          (mkSenderProfile (_id (user sock)) (name (user sock))
             (avatar (user sock)))
          (content data) now));
    (ToRoomExcept (UserRoom (receiverId data)) (socketId sock),
     message_notification (chatId data) (name (user sock))
       (String.substring 0 50 (content data))) ].

(** *** Rooms *)

(** [socket.join(name)] and [socket.leave(name)] for the socket [sid]. *)
Definition join (rooms : Rooms) (sid : nat) (name : Room) : Rooms :=
  λ r, if decide (r = name) then rooms r ∪ {[sid]} else rooms r.

Definition leave (rooms : Rooms) (sid : nat) (name : Room) : Rooms :=
  λ r, if decide (r = name) then rooms r ∖ {[sid]} else rooms r.

(** [io.on('connection')]: the socket joins its user's personal room. *)
Definition onConnection (rooms : Rooms) (sock : t) : Rooms :=
  join rooms (socketId sock) (UserRoom (oid_hex (userId sock))).

(** [socket.on('join-chat')] and [socket.on('leave-chat')]: the room
    name is whatever the client sends. *)
Definition joinChat (rooms : Rooms) (sock : t) (name : Room) : Rooms :=
  join rooms (socketId sock) name.

Definition leaveChat (rooms : Rooms) (sock : t) (name : Room) : Rooms :=
  leave rooms (socketId sock) name.

(** A [join-chat] or [leave-chat] event, and runs of such events of
    any connections. *)
Inductive RoomOp :=
  | JoinChat (name : Room)
  | LeaveChat (name : Room).

Definition roomStep (rooms : Rooms) (e : t * RoomOp) : Rooms :=
  match e.2 with
  | JoinChat name => joinChat rooms e.1 name
  | LeaveChat name => leaveChat rooms e.1 name
  end.

Definition roomRun (rooms : Rooms) (es : list (t * RoomOp)) : Rooms :=
  foldl roomStep rooms es.

(** The one event that takes [sock] out of its user's personal room:
    its own [leave-chat] with that room's name. *)
Definition leavesOwnRoom (sock : t) (e : t * RoomOp) : bool :=
  bool_decide (socketId e.1 = socketId sock)
  && match e.2 with
     | LeaveChat name => bool_decide (name = UserRoom (oid_hex (userId sock)))
     | JoinChat _ => false
     end.

(** *** Typing signals *)

Inductive Signal :=
  | user_typing (chatId : Room) (userId : ObjectId) (userName : string)
  | user_stop_typing (chatId : Room) (userId : ObjectId).

(** [socket.on('typing-start')] and [socket.on('typing-stop')] *)
Definition typingStart (sock : t) (name : Room) : Target * Signal :=
  (ToRoomExcept name (socketId sock),
   user_typing name (userId sock) (Socket.name (user sock))).

Definition typingStop (sock : t) (name : Room) : Target * Signal :=
  (ToRoomExcept name (socketId sock), user_stop_typing name (userId sock)).

End Socket.

(** ** Concrete stores and events used in the examples below *)

Module Examples.

Import RequestController.

(** A listing of donor 1, open for requests. *)
Definition food0 : Food.t :=
  Food.mk 1 (Food.mkAvailability 100 200 300 true) Food.available true.

Definition body0 : Body :=
  mkBody 0 (Some "for the shelter") (Request.mkQuantity 2 "servings")
    (Request.mkPickupDetails (Some 150) None None).

Definition store0 : Store := fresh {[0 := food0]}.

(** Receiver 2 asks and is rejected, receiver 3 asks, then the donor
    accepts both requests, the rejected one first. *)
Definition doubleAccept : list Op :=
  [ OpCreate 2 body0;
    OpUpdate 10 1 0 "rejected" None;
    OpCreate 3 body0;
    OpUpdate 20 1 0 "accepted" None;
    OpUpdate 30 1 1 "accepted" None ].

(** Receiver 2 asks and the donor accepts. *)
Definition createAccept : list Op :=
  [ OpCreate 2 body0; OpUpdate 10 1 0 "accepted" None ].

(** Receiver 2 asks and is rejected. *)
Definition createReject : list Op :=
  [ OpCreate 2 body0; OpUpdate 10 1 0 "rejected" None ].

(** Two pending requests on listing 0, which is [requested]. *)
Definition pendingBy (receiver : Id) : Request.t :=
  Request.cast (createFields food0 receiver body0).

Definition twoPending : Store :=
  mkStore {[0 := Food.set_status Food.requested food0]}
    [pendingBy 2; pendingBy 3].

(** Users 1 (A) and 2 (B), and an outsider 9. *)
Definition oidA : ObjectId := mkObjectId 101 1.
Definition oidB : ObjectId := mkObjectId 102 2.

(** The chat [findOrCreateChat] makes for A, B and listing 0. *)
Definition chatAB : Chat.t := Chat.new 5 [oidA; oidB] (Some 0).

Fixpoint chars (n : nat) (a : ascii) : string :=
  match n with
  | 0 => EmptyString
  | S n' => String a (chars n' a)
  end.

(** 1000 spaces, and 1000 letters followed by a space. *)
Definition blank1000 : string := chars 1000 " "%char.
Definition padded1001 : string := chars 1000 "a"%char +:+ " ".

Definition noMedia : Chat.MediaData := Chat.mkMediaData None None.

(** A and B in conversation: A's first message and B's answer are
    unread, A's last message has been read at 25. *)
Definition askA : Chat.Message :=
  Chat.mkMessage 1 "is it still there?" "text" None None false None 10.
Definition answerB : Chat.Message :=
  Chat.mkMessage 2 "yes, until six" "text" None None false None 20.
Definition thanksA : Chat.Message :=
  Chat.mkMessage 1 "on my way" "text" None None true (Some 25) 22.

Definition chatTalk : Chat.t :=
  Chat.mk [oidA; oidB] (Some 0) [askA; answerB; thanksA]
    (Some (Chat.mkMessage 1 "on my way" "text" None None false None 22))
    {[1 := 1; 2 := 1]} true 22.


(** The same ObjectId object twice, and two objects for one user. *)
Definition chatAliased : Chat.t := Chat.new 5 [oidA; oidA] (Some 0).
Definition chatTwin : Chat.t :=
  Chat.new 5 [oidA; mkObjectId 103 1] (Some 0).

Definition userA : Socket.User :=
  Socket.mkUser oidA "Asha" (Some "asha.png") "asha@example.org" "donor".
Definition outsider : Socket.User :=
  Socket.mkUser (mkObjectId 109 9) "Omar" None "omar@example.org" "receiver".

Definition sockA : Socket.t := Socket.mk 41 userA.
Definition sockOutsider : Socket.t := Socket.mk 49 outsider.

(** The outsider's connection wanders through rooms while A's joins and
    leaves the outsider's personal room. *)
Definition wandering : list (Socket.t * Socket.RoomOp) :=
  [ (sockOutsider, Socket.JoinChat (Socket.ChatRoom 0));
    (sockOutsider, Socket.LeaveChat (Socket.ChatRoom 0));
    (sockOutsider, Socket.LeaveChat (Socket.UserRoom 2));
    (sockA, Socket.JoinChat (Socket.UserRoom 9));
    (sockA, Socket.LeaveChat (Socket.UserRoom 9));
    (sockOutsider, Socket.JoinChat (Socket.UserRoom 9)) ].

(** Sockets 41 and 42 view chat 0; 42 and 43 are B's connections. *)
Definition rooms0 : Socket.Rooms :=
  λ r, match r with
       | Socket.ChatRoom 0 => {[41; 42]}
       | Socket.UserRoom 2 => {[42; 43]}
       | Socket.UserRoom 1 => {[41]}
       | _ => ∅
       end.

End Examples.

(** ** controllers/foodController.js: removing a listing *)

Module FoodController.

Inductive Response :=
  | Done (code : nat) (message : string)
  | Next (e : Error).

(** [food.isActive = false; food.status = 'cancelled'] *)
Definition removed (food : Food.t) : Food.t :=
  Food.mk (Food.donor food) (Food.availability food) Food.cancelled false.

(** [deleteFood]: the owner or an admin deactivates the listing. *)
Definition deleteFood (foods : gmap Id Food.t) (user : Id) (role : string)
    (id : Id) : gmap Id Food.t * Response :=
  match foods !! id with
  | None => (foods, Next (AppError "Food not found" 404))
  | Some food =>
    let isOwner := bool_decide (Food.donor food = user) in
    if negb isOwner && negb (bool_decide (role = "admin"))
    then (foods, Next (AppError "Not authorized" 403))
    else (<[id := removed food]> foods, Done 200 "Listing removed")
  end.

(** [deleteFood] on the store shared with the request controller. *)
Definition deleteFoodIn (s : RequestController.Store) (user : Id)
    (role : string) (id : Id) : RequestController.Store * Response :=
  let out := deleteFood (RequestController.foods s) user role id in
  (RequestController.mkStore out.1 (RequestController.requests s), out.2).

End FoodController.

(** ** middleware/auth.js and the handshake of config/socket.js *)

Module Auth.

(** A user document: the profile a socket carries, and the flag
    [protect] checks. *)
Record Account := mkAccount {
  profile : Socket.User;
  isActive : bool
}.

(** [String.prototype.split] with a one-character separator. *)
Fixpoint split (sep : ascii) (s : string) : list string :=
  match s with
  | EmptyString => [EmptyString]
  | String a s' =>
    if Ascii.eqb a sep then EmptyString :: split sep s'
    else match split sep s' with
         | x :: xs => String a x :: xs
         | [] => [String a EmptyString]
         end
  end.

Inductive Outcome :=
  | Proceed (user : Account)                  (* next() with req.user set *)
  | Reply (code : nat) (message : string).    (* res.status(code).json(...) *)

Section WithJwt.

(** [jwt.verify(token, secret)] as the id in the payload of a token the
    server signed, [None] when it throws. *)
Variable verify : string → option Id.

(** [jsonwebtoken] refuses a missing or empty token before it looks at
    anything else. *)
Definition jwtVerify (token : option string) : option Id :=
  match token with
  | None => None
  | Some t => if bool_decide (t = "") then None else verify t
  end.

(** [protect] *)
Definition protect (users : gmap Id Account) (authorization : option string)
    : Outcome :=
  match authorization with
  | Some header =>
    if negb (bool_decide (header = "")) && String.prefix "Bearer" header then
      let token := split " " header !! 1 in
      match jwtVerify token with
      | None => Reply 401 "Not authorized, invalid token"
      | Some id =>
        match users !! id with
        | None => Reply 401 "User not found"
        | Some user =>
          if negb (isActive user)
          then Reply 401 "User account is deactivated"
          else Proceed user
        end
      end
    else Reply 401 "Not authorized, no token provided"
  | None => Reply 401 "Not authorized, no token provided"
  end.

(** The [io.use] middleware of the gateway: the connection [sid] is
    admitted as a socket bound to the user, or refused with an error. *)
Definition handshake (users : gmap Id Account) (sid : nat)
    (token : option string) : string + Socket.t :=
  match token with
  | None => inl "Authentication error: No token provided"
  | Some t =>
    if bool_decide (t = "")
    then inl "Authentication error: No token provided"
    else
      match verify t with
      | None => inl "Authentication error: Invalid token"
      | Some id =>
        match users !! id with
        | None => inl "Authentication error: User not found"
        | Some user => inr (Socket.mk sid (profile user))
        end
      end
  end.

End WithJwt.

(** A token is one word when it holds no blank. *)
Fixpoint oneWord (t : string) : bool :=
  match t with
  | EmptyString => true
  | String a t' => negb (Ascii.eqb a " ") && oneWord t'
  end.

End Auth.

(** ** middleware/auth.js: the rate limiter *)

Global Instance ObjectId_countable : Countable ObjectId :=
  inj_countable' (λ o, (oid_ref o, oid_hex o)) (λ p, mkObjectId p.1 p.2)
    (λ o, match o with mkObjectId _ _ => eq_refl end).

Module RateLimit.

(** [req.user?._id || req.ip]: an ObjectId object, or the address.  As
    keys of a [Map], ObjectId objects are told apart by identity and
    addresses by value. *)
Abbreviation Key := (ObjectId + string)%type (only parsing).

Definition keyOf (user : option ObjectId) (ip : string) : Key :=
  match user with
  | Some o => inl o
  | None => inr ip
  end.

Inductive Verdict :=
  | Pass                 (* next() *)
  | TooMany.             (* 429 *)

Global Instance Verdict_eq_dec : EqDecision Verdict.
Proof. solve_decision. Defined.

Definition recent (windowStart : Z) (time : Date) : bool :=
  bool_decide (windowStart < Z.of_nat time)%Z.

(** The middleware [rateLimit(maxRequests, windowMs)] returns, applied
    to the [Map] it closes over. *)
Definition rateLimit (maxRequests windowMs : nat)
    (requests : gmap Key (list Date)) (userId : Key) (now : Date)
    : gmap Key (list Date) * Verdict :=
  let windowStart := (Z.of_nat now - Z.of_nat windowMs)%Z in
  let requests1 :=
    match requests !! userId with
    | Some times => <[userId := List.filter (recent windowStart) times]> requests
    | None => requests
    end in
  let userRequests := default [] (requests1 !! userId) in
  if bool_decide (maxRequests ≤ length userRequests)
  then (requests1, TooMany)
  else (<[userId := userRequests ++ [now]]> requests1, Pass).

(** The times of [k] that the clean-up at [now] keeps. *)
Definition kept (windowMs : nat) (requests : gmap Key (list Date)) (k : Key)
    (now : Date) : list Date :=
  List.filter (recent (Z.of_nat now - Z.of_nat windowMs))
    (default [] (requests !! k)).

(** A run of the middleware from the empty [Map]: the [Map] at the end
    and, for every request, its key, its time and its verdict. *)
Definition serve (maxRequests windowMs : nat)
    (acc : gmap Key (list Date) * list (Key * Date * Verdict))
    (e : Key * Date) : gmap Key (list Date) * list (Key * Date * Verdict) :=
  let out := rateLimit maxRequests windowMs acc.1 e.1 e.2 in
  (out.1, acc.2 ++ [(e.1, e.2, out.2)]).

Definition run (maxRequests windowMs : nat) (events : list (Key * Date))
    : gmap Key (list Date) * list (Key * Date * Verdict) :=
  foldl (serve maxRequests windowMs) (∅, []) events.

(** The times at which requests of [k] were admitted. *)
Definition admitted (k : Key) (log : list (Key * Date * Verdict))
    : list Date :=
  omap (λ e, if bool_decide (e.1.1 = k) && bool_decide (e.2 = Pass)
             then Some e.1.2 else None) log.

(** How many of [times] are later than [bound]. *)
Definition laterThan (bound : Z) (times : list Date) : nat :=
  length (List.filter (recent bound) times).

(** What a run keeps true: no key holds more than [maxRequests] times,
    and above any bound that is within the window of every request
    served, the stored times of a key count like its admitted times. *)
Definition runInvariant (maxRequests windowMs : nat)
    (events : list (Key * Date))
    (acc : gmap Key (list Date) * list (Key * Date * Verdict)) : Prop :=
  (∀ k, length (default [] (acc.1 !! k)) ≤ maxRequests)
  ∧ ∀ k bound,
      (∀ e, e ∈ events → (Z.of_nat e.2 - Z.of_nat windowMs ≤ bound)%Z) →
      laterThan bound (admitted k acc.2)
      = laterThan bound (default [] (acc.1 !! k)).

End RateLimit.

(** ** Concrete requests used in the examples of the middleware *)

Module Traffic.

Import RateLimit.

(** Three requests from one address, 100 ms apart. *)
Definition fromOneAddress : list ((ObjectId + string) * nat) :=
  [ (keyOf None "10.0.0.1", 0);
    (keyOf None "10.0.0.1", 100);
    (keyOf None "10.0.0.1", 200) ].

(** Three requests of user 7, each with the ObjectId object of a
    document read for that request. *)
Definition fromOneUser : list ((ObjectId + string) * nat) :=
  [ (keyOf (Some (mkObjectId 1 7)) "10.0.0.1", 0);
    (keyOf (Some (mkObjectId 2 7)) "10.0.0.1", 100);
    (keyOf (Some (mkObjectId 3 7)) "10.0.0.1", 200) ].

(** A token table standing for [jwt.verify]. *)
Definition verify (token : string) : option nat :=
  if bool_decide (token = "token-of-1") then Some 1
  else if bool_decide (token = "token-of-4") then Some 4
  else None.

(** User 1 is active, user 4 has been deactivated. *)
Definition users : gmap nat Auth.Account :=
  {[ 1 := Auth.mkAccount Examples.userA true;
     4 := Auth.mkAccount
            (Socket.mkUser (mkObjectId 104 4) "Dev" None "dev@example.org"
               "receiver")
            false ]}.

End Traffic.

(** * Properties of the request lifecycle *)

Section RequestLifecycle.

Import RequestController.

Implicit Types (s : Store) (r : Request.t) (q : Request.t → bool).

Lemma countDocuments_app q (l1 l2 : list Request.t) :
  countDocuments q (l1 ++ l2) = countDocuments q l1 + countDocuments q l2.
Proof.
  unfold countDocuments. by rewrite List.filter_app, length_app.
Qed.

(** Replacing one document moves the count by that document only. *)
Lemma countDocuments_insert q (l : list Request.t) i r r' :
  l !! i = Some r →
  countDocuments q (<[i := r']> l) + Nat.b2n (q r)
  = countDocuments q l + Nat.b2n (q r').
Proof.
  unfold countDocuments. revert i.
  induction l as [|x l IH]; intros [|i] Hi; simplify_eq/=.
  - destruct (q r), (q r'); simpl; lia.
  - specialize (IH _ Hi). destruct (q x); simpl; lia.
Qed.

Lemma isActiveFor_accept fid now msg proposed r :
  Request.status r = Request.pending →
  Request.isActiveFor fid (Request.accept now msg proposed r)
  = Request.isActiveFor fid r.
Proof.
  intros Hst. unfold Request.isActiveFor. simpl. rewrite Hst.
  by destruct (bool_decide (Request.foodItem r = fid)).
Qed.

Lemma isActiveFor_reject fid now msg r :
  Request.isActiveFor fid (Request.reject now msg r) = false.
Proof. unfold Request.isActiveFor. simpl. apply andb_false_r. Qed.

Lemma isActiveFor_cancel fid now why who r :
  Request.isActiveFor fid (Request.cancel now why who r) = false.
Proof. unfold Request.isActiveFor. simpl. apply andb_false_r. Qed.

Lemma isActiveFor_markPickedUp fid now actual note r :
  Request.isActiveFor fid (Request.markPickedUp now actual note r) = false.
Proof. unfold Request.isActiveFor. simpl. apply andb_false_r. Qed.

(** Saving a request that is no more active than the one it replaces
    does not raise any listing's count of active requests. *)
Lemma countActive_saveRequest s id r r' fid :
  requests s !! id = Some r →
  Nat.b2n (Request.isActiveFor fid r') ≤ Nat.b2n (Request.isActiveFor fid r) →
  countActive (saveRequest s id r') fid ≤ countActive s fid.
Proof.
  intros Hid Hle. unfold countActive, saveRequest. cbn [requests].
  pose proof (countDocuments_insert (Request.isActiveFor fid) _ _ _ r' Hid).
  lia.
Qed.

Lemma countDocuments_mono q1 q2 (l : list Request.t) :
  (∀ x, q1 x = true → q2 x = true) →
  countDocuments q1 l ≤ countDocuments q2 l.
Proof.
  intros Himp. unfold countDocuments.
  induction l as [|x l IH]; simpl; [done|].
  destruct (q1 x) eqn:H1.
  - rewrite (Himp _ H1). simpl. lia.
  - destruct (q2 x); simpl; lia.
Qed.

Lemma countAccepted_le_countActive s fid :
  countAccepted s fid ≤ countActive s fid.
Proof.
  apply countDocuments_mono. intros x.
  unfold Request.isAcceptedFor, Request.isActiveFor.
  intros [-> ->]%andb_true_iff. by rewrite orb_true_r.
Qed.

Lemma lifecycleInv_fresh fs : lifecycleInv (fresh fs).
Proof. intros fid. split; [cbv; lia | done]. Qed.

Lemma updateFood_inv s s1 status r :
  lifecycleInv s →
  foods s1 = foods s →
  (∀ fid, countActive s1 fid ≤ countActive s fid) →
  lifecycleInv (updateFood s1 status r).1.
Proof.
  intros Hinv Hfoods Hle.
  assert (Hs1 : lifecycleInv s1).
  { intros fid. destruct (Hinv fid) as [H1 H2]. specialize (Hle fid).
    split; [lia|]. intros food Hf Hav. rewrite Hfoods in Hf.
    specialize (H2 _ Hf Hav). lia. }
  unfold updateFood.
  case_bool_decide as Hacc.
  { destruct (foods s1 !! Request.foodItem r) as [food|] eqn:Hfood; [|done].
    intros fid. destruct (Hs1 fid) as [H1 H2]. split; [done|].
    simpl. intros food'.
    destruct (decide (Request.foodItem r = fid)) as [->|Hne].
    - rewrite lookup_insert_eq. intros [= <-]. done.
    - rewrite lookup_insert_ne by done. apply H2. }
  destruct (bool_decide (status = "cancelled") || bool_decide (status = "rejected"));
    [|done].
  destruct (foods s1 !! Request.foodItem r) as [food|] eqn:Hfood; [|done].
  case_bool_decide as Hzero; [|done].
  intros fid. destruct (Hs1 fid) as [H1 H2]. split; [done|].
  simpl. intros food'.
  destruct (decide (Request.foodItem r = fid)) as [<-|Hne].
  - intros _ _. exact Hzero.
  - rewrite lookup_insert_ne by done. apply H2.
Qed.

Lemma countDocuments_cast fid (x : Request.Fields) :
  countDocuments (Request.isActiveFor fid) [Request.cast x]
  = Nat.b2n (bool_decide (Request.f_foodItem x = fid)).
Proof.
  unfold countDocuments, Request.isActiveFor. simpl.
  by destruct (bool_decide (Request.f_foodItem x = fid)).
Qed.

Lemma createRequest_inv s user body :
  lifecycleInv s → lifecycleInv (createRequest s user body).1.
Proof.
  intros Hinv. unfold createRequest.
  destruct (foods s !! b_foodItem body) as [food|] eqn:Hfood; [|done].
  destruct (Food.isActive food); simpl; [|done].
  case_bool_decide as Hav; simpl; [|done].
  destruct (Request.validate _); simpl; [|done].
  intros fid. unfold countActive. cbn [requests foods].
  rewrite countDocuments_app, countDocuments_cast. cbn [Request.f_foodItem].
  destruct (Hinv fid) as [H1 H2]. fold (countActive s fid).
  destruct (decide (b_foodItem body = fid)) as [<-|Hne].
  - rewrite (H2 _ Hfood Hav). rewrite bool_decide_eq_true_2 by done. simpl.
    split; [lia|]. intros food'. rewrite lookup_insert_eq. by intros [= <-].
  - rewrite bool_decide_eq_false_2 by done. simpl.
    rewrite Nat.add_0_r. split; [done|].
    intros food'. rewrite lookup_insert_ne by done. apply H2.
Qed.

Lemma updateStatus_inv s now user id status msg :
  lifecycleInv s →
  acceptsPending s (OpUpdate now user id status msg) →
  lifecycleInv (updateStatus s now user id status msg).1.
Proof.
  intros Hinv Hdisc. unfold updateStatus.
  destruct (requests s !! id) as [r|] eqn:Hid; [|done].
  repeat case_bool_decide; simpl; try done;
    repeat match goal with
           | |- context [if negb ?b then _ else _] => destruct b; simpl; try done
           | |- context [if ?a && ?b then _ else _] =>
               destruct (a && b); simpl; try done
           end;
    (apply (updateFood_inv s); [done | done |]);
    intros fid; apply (countActive_saveRequest _ _ r); try done.
  all: rewrite ?isActiveFor_reject, ?isActiveFor_cancel,
         ?isActiveFor_markPickedUp; simpl; try lia.
  rewrite isActiveFor_accept; [done|]. by apply Hdisc.
Qed.

Lemma reachable_inv fs s : reachable (fresh fs) s → lifecycleInv s.
Proof.
  induction 1 as [|s o _ IH Hdisc].
  - apply lifecycleInv_fresh.
  - destruct o as [user body | now user id status msg]; simpl.
    + by apply createRequest_inv.
    + by apply updateStatus_inv.
Qed.

(** *** At most one accepted request per listing *)

(** C1, as stated, fails: [accept] does not look at the request's
    status, so after [doubleAccept] the listing has two accepted
    requests. *)
Lemma accepted_twice :
  ¬ (countAccepted (exec Examples.store0 Examples.doubleAccept) 0 ≤ 1).
Proof. vm_compute. lia. Qed.

(** C1 (amended): along every sequence of create, accept, reject,
    cancel and complete operations from a store without requests, in
    which each accept names a request that is still pending, every
    listing has at most one accepted request. *)
Theorem accepted_at_most_one fs s fid :
  reachable (fresh fs) s → countAccepted s fid ≤ 1.
Proof.
  intros Hreach.
  pose proof (countAccepted_le_countActive s fid).
  destruct (reachable_inv _ _ Hreach fid) as [? _]. lia.
Qed.

Lemma accepted_at_most_one_witness :
  countAccepted (exec Examples.store0 Examples.createAccept) 0 ≤ 1.
Proof.
  apply (accepted_at_most_one {[0 := Examples.food0]}).
  change (exec Examples.store0 Examples.createAccept)
    with (step (step Examples.store0 (OpCreate 2 Examples.body0))
            (OpUpdate 10 1 0 "accepted" None)).
  apply reachable_step; [apply reachable_step; [apply reachable_init|]|].
  - exact I.
  - intros _ r. vm_compute. intros [= <-]. reflexivity.
Defined.

(** *** createRequest *)




(** *** accept *)

(** The first two operations of [createReject] leave request 0
    rejected; C3 says accepting it must fail with [InvalidState], yet
    the donor's accept is answered 200 and the request is accepted. *)
Lemma accept_rejected_succeeds :
  let s := exec Examples.store0 Examples.createReject in
  let out := updateStatus s 20 1 0 "accepted" None in
  Request.status <$> requests s !! 0 = Some Request.rejected
  ∧ (∃ r, out.2 = Json 200 r ∧ Request.status r = Request.accepted)
  ∧ Request.status <$> requests out.1 !! 0 = Some Request.accepted.
Proof.
  vm_compute. split; [done|]. split; [|done].
  eexists. split; reflexivity.
Qed.

(** C3 (amended): an accept by anyone but the request's donor is
    refused with 403 and changes nothing; an accept by the donor,
    whatever the request's status, sets the request to [accepted] and
    its listing to [claimed] with [isAvailable = false], and is
    answered 200. *)
Theorem accept_spec s now user id msg request :
  requests s !! id = Some request →
  (Request.donor request ≠ user →
   updateStatus s now user id "accepted" msg
   = (s, Next (AppError "Only donor can accept" 403)))
  ∧
  (Request.donor request = user →
   ∀ food, foods s !! Request.foodItem request = Some food →
     let out := updateStatus s now user id "accepted" msg in
     ∃ request' food',
       out.2 = Json 200 request'
       ∧ requests out.1 !! id = Some request'
       ∧ Request.status request' = Request.accepted
       ∧ foods out.1 !! Request.foodItem request = Some food'
       ∧ Food.status food' = Food.claimed
       ∧ Food.isAvailable (Food.availability food') = false).
Proof.
  intros Hid. unfold updateStatus. rewrite Hid.
  rewrite (bool_decide_eq_true_2 ("accepted" = "accepted")) by done.
  split.
  - intros Hne. by rewrite (bool_decide_eq_false_2 _ Hne).
  - intros Heq food Hfood. rewrite (bool_decide_eq_true_2 _ Heq). simpl.
    unfold updateFood.
    rewrite (bool_decide_eq_true_2 ("accepted" = "accepted")) by done.
    cbn [saveRequest foods Request.accept Request.set_donorResponse
         Request.set_status Request.foodItem].
    rewrite Hfood. cbn [fst snd foods requests].
    eexists _, _. split; [reflexivity|].
    split; [apply list_lookup_insert_eq; by eapply lookup_lt_Some|].
    split; [reflexivity|].
    split; [apply lookup_insert_eq|]. done.
Qed.

Lemma accept_spec_witness :
  let s := exec Examples.store0 [OpCreate 2 Examples.body0] in
  updateStatus s 10 2 0 "accepted" None
  = (s, Next (AppError "Only donor can accept" 403))
  ∧
  (let out := updateStatus s 10 1 0 "accepted" None in
   ∃ request' food',
     out.2 = Json 200 request'
     ∧ requests out.1 !! 0 = Some request'
     ∧ Request.status request' = Request.accepted
     ∧ foods out.1 !! 0 = Some food'
     ∧ Food.status food' = Food.claimed
     ∧ Food.isAvailable (Food.availability food') = false).
Proof.
  intros s.
  pose proof (accept_spec s 10 2 0 None (Examples.pendingBy 2) eq_refl) as H2.
  pose proof (accept_spec s 10 1 0 None (Examples.pendingBy 2) eq_refl) as H1.
  split.
  - apply (proj1 H2). vm_compute. lia.
  - apply (proj2 H1 eq_refl (Food.set_status Food.requested Examples.food0)).
    reflexivity.
Defined.

(** *** Reverting the listing after reject and cancel *)

(** What [updateStatus] does to the store once a reject or a cancel
    has passed the authorization check. *)
Lemma updateFood_revert s1 status r food :
  status = "rejected" ∨ status = "cancelled" →
  foods s1 !! Request.foodItem r = Some food →
  updateFood s1 status r
  = (if bool_decide (countActive s1 (Request.foodItem r) = 0)
     then mkStore (<[Request.foodItem r := reopened food]> (foods s1))
            (requests s1)
     else s1,
     Json 200 r).
Proof.
  intros Hst Hfood. unfold updateFood.
  rewrite bool_decide_eq_false_2 by (destruct Hst as [-> | ->]; done).
  assert (bool_decide (status = "cancelled")
          || bool_decide (status = "rejected") = true) as ->.
  { destruct Hst as [-> | ->]; done. }
  rewrite Hfood. fold (countActive s1 (Request.foodItem r)).
  by case_bool_decide.
Qed.

Lemma updateStatus_reject s now id msg r :
  requests s !! id = Some r →
  updateStatus s now (Request.donor r) id "rejected" msg
  = updateFood (saveRequest s id (Request.reject now msg r)) "rejected"
      (Request.reject now msg r).
Proof.
  intros Hid. unfold updateStatus. rewrite Hid.
  rewrite (bool_decide_eq_false_2 ("rejected" = "accepted")) by done.
  rewrite (bool_decide_eq_true_2 ("rejected" = "rejected")) by done.
  by rewrite bool_decide_eq_true_2 by done.
Qed.

(** Rejecting an active request on [fid] lowers the listing's count of
    active requests by one. *)
Lemma countActive_reject s now id msg r :
  requests s !! id = Some r →
  Request.isActiveFor (Request.foodItem r) r = true →
  S (countActive (saveRequest s id (Request.reject now msg r))
       (Request.foodItem r))
  = countActive s (Request.foodItem r).
Proof.
  intros Hid Hact. unfold countActive, saveRequest. cbn [requests].
  pose proof (countDocuments_insert
                (Request.isActiveFor (Request.foodItem r)) _ _ _
                (Request.reject now msg r) Hid) as Heq.
  rewrite Hact, isActiveFor_reject in Heq. simpl in Heq. lia.
Qed.

(** C4: when a reject or a cancel goes through (answer 200) on a
    request whose listing resolves, then afterwards, if no request on
    that listing is pending or accepted any more, the listing's status
    is [available] and its [isAvailable] is true; if one still is, the
    listing is exactly as it was.  In neither case does it change
    donor, [isActive] or pickup times.  With two pending requests on a
    [requested] listing and no other pending or accepted one, the
    donor's reject of the first leaves the listing [requested] and the
    reject of the second makes it [available] with [isAvailable]
    true. *)
Theorem revert_when_no_active_request :
  (∀ s now user id status msg request food s' resp,
     status = "rejected" ∨ status = "cancelled" →
     requests s !! id = Some request →
     foods s !! Request.foodItem request = Some food →
     updateStatus s now user id status msg = (s', Json 200 resp) →
     let remaining :=
       ∃ r, r ∈ requests s' ∧ Request.foodItem r = Request.foodItem request
            ∧ (Request.status r = Request.pending
               ∨ Request.status r = Request.accepted) in
     ∃ food',
       foods s' !! Request.foodItem request = Some food'
       ∧ (¬ remaining →
          Food.status food' = Food.available
          ∧ Food.isAvailable (Food.availability food') = true)
       ∧ (remaining → food' = food)
       ∧ Food.donor food' = Food.donor food
       ∧ Food.isActive food' = Food.isActive food
       ∧ Food.pickupStart (Food.availability food')
         = Food.pickupStart (Food.availability food)
       ∧ Food.pickupEnd (Food.availability food')
         = Food.pickupEnd (Food.availability food)
       ∧ Food.expiryTime (Food.availability food')
         = Food.expiryTime (Food.availability food))
  ∧
  (∀ s fid donor i1 i2 r1 r2 food now1 now2 msg1 msg2,
     i1 ≠ i2 →
     requests s !! i1 = Some r1 →
     requests s !! i2 = Some r2 →
     Request.foodItem r1 = fid → Request.foodItem r2 = fid →
     Request.donor r1 = donor → Request.donor r2 = donor →
     Request.status r1 = Request.pending →
     Request.status r2 = Request.pending →
     (∀ j r, requests s !! j = Some r → Request.foodItem r = fid →
             Request.status r = Request.pending
             ∨ Request.status r = Request.accepted →
             j = i1 ∨ j = i2) →
     foods s !! fid = Some food →
     Food.status food = Food.requested →
     let s1 := (updateStatus s now1 donor i1 "rejected" msg1).1 in
     let s2 := (updateStatus s1 now2 donor i2 "rejected" msg2).1 in
     ∃ f1 f2,
       Request.status <$> requests s1 !! i1 = Some Request.rejected
       ∧ foods s1 !! fid = Some f1
       ∧ Food.status f1 = Food.requested
       ∧ Request.status <$> requests s2 !! i2 = Some Request.rejected
       ∧ foods s2 !! fid = Some f2
       ∧ Food.status f2 = Food.available
       ∧ Food.isAvailable (Food.availability f2) = true).
Proof.
  assert (Hpos : ∀ fid (l : list Request.t),
            countDocuments (Request.isActiveFor fid) l ≠ 0 ↔
            ∃ r, r ∈ l ∧ Request.foodItem r = fid
                 ∧ (Request.status r = Request.pending
                    ∨ Request.status r = Request.accepted)).
  { intros fid l. unfold countDocuments. rewrite length_zero_iff_nil.
    assert (Hact : ∀ r, Request.isActiveFor fid r = true ↔
                        Request.foodItem r = fid
                        ∧ (Request.status r = Request.pending
                           ∨ Request.status r = Request.accepted)).
    { intros r. unfold Request.isActiveFor.
      rewrite andb_true_iff, orb_true_iff, !bool_decide_eq_true. done. }
    split.
    - destruct (List.filter _ _) as [|r l'] eqn:Hf; [done|]. intros _.
      assert (Hin : In r (List.filter (Request.isActiveFor fid) l))
        by (rewrite Hf; by left).
      apply List.filter_In in Hin as [Hin Hr].
      exists r. split; [by apply list_elem_of_In|]. by apply Hact.
    - intros (r & Hin & Hr) Hnil.
      assert (Hin' : In r (List.filter (Request.isActiveFor fid) l)).
      { apply List.filter_In. split; [by apply list_elem_of_In|].
        by apply Hact. }
      by rewrite Hnil in Hin'. }
  split.
  - intros s now user id status msg request food s' resp Hst Hid Hfood Hupd
      remaining.
    assert (Hgo : ∃ r1, Request.foodItem r1 = Request.foodItem request
                        ∧ updateFood (saveRequest s id r1) status r1
                          = (s', Json 200 resp)).
    { revert Hupd. unfold updateStatus. rewrite Hid.
      destruct Hst as [-> | ->].
      + rewrite (bool_decide_eq_false_2 ("rejected" = "accepted")) by done.
        rewrite (bool_decide_eq_true_2 ("rejected" = "rejected")) by done.
        destruct (negb _); [done|]. intros H.
        eexists. split; [|exact H]. reflexivity.
      + rewrite (bool_decide_eq_false_2 ("cancelled" = "accepted")) by done.
        rewrite (bool_decide_eq_false_2 ("cancelled" = "rejected")) by done.
        rewrite (bool_decide_eq_true_2 ("cancelled" = "cancelled")) by done.
        destruct (_ && _); [done|]. intros H.
        eexists. split; [|exact H]. reflexivity. }
    destruct Hgo as (r1 & Hfid & Hupd1).
    revert Hupd1. unfold updateFood.
    rewrite (bool_decide_eq_false_2 (status = "accepted"))
      by (destruct Hst as [-> | ->]; done).
    assert (bool_decide (status = "cancelled")
            || bool_decide (status = "rejected") = true) as ->
      by (destruct Hst as [-> | ->]; done).
    cbn [saveRequest foods requests]. rewrite Hfid, Hfood.
    pose proof (Hpos (Request.foodItem request) (<[id := r1]> (requests s)))
      as Hrem.
    case_bool_decide as Hzero; intros [= <- _]; cbn [foods requests] in *.
    + eexists. split; [apply lookup_insert_eq|].
      split; [done|]. split; [|done].
      intros Hsome. apply Hrem in Hsome. done.
    + exists food. split; [exact Hfood|].
      split; [|done]. intros Hnone. destruct Hnone. by apply Hrem.
  - intros s fid donor i1 i2 r1 r2 food now1 now2 msg1 msg2
      Hne H1 H2 Hf1 Hf2 Hd1 Hd2 Hp1 Hp2 Honly Hfood Hreq s1 s2.
    assert (Hrej : ∀ t now msg i r food0,
              requests t !! i = Some r → Request.donor r = donor →
              Request.foodItem r = fid → foods t !! fid = Some food0 →
              (updateStatus t now donor i "rejected" msg).1
              = if bool_decide
                     (countDocuments (Request.isActiveFor fid)
                        (<[i := Request.reject now msg r]> (requests t)) = 0)
                then mkStore
                       (<[fid := Food.set_isAvailable true
                                   (Food.set_status Food.available food0)]>
                          (foods t))
                       (<[i := Request.reject now msg r]> (requests t))
                else saveRequest t i (Request.reject now msg r)).
    { intros t now msg i r food0 Hi Hd Hf Hfd. unfold updateStatus.
      rewrite Hi.
      rewrite (bool_decide_eq_false_2 ("rejected" = "accepted")) by done.
      rewrite (bool_decide_eq_true_2 ("rejected" = "rejected")) by done.
      rewrite (bool_decide_eq_true_2 _ Hd). cbn [negb].
      unfold updateFood.
      rewrite (bool_decide_eq_false_2 ("rejected" = "accepted")) by done.
      rewrite (bool_decide_eq_true_2 ("rejected" = "rejected")) by done.
      rewrite orb_true_r.
      cbn [saveRequest foods requests Request.reject Request.set_donorResponse
           Request.set_status Request.foodItem].
      rewrite Hf, Hfd. by case_bool_decide. }
    assert (Hlt1 : i1 < length (requests s)) by (by eapply lookup_lt_Some).
    assert (Hlt2 : i2 < length (requests s)) by (by eapply lookup_lt_Some).
    assert (Hs1 : s1 = saveRequest s i1 (Request.reject now1 msg1 r1)).
    { subst s1. rewrite (Hrej s now1 msg1 i1 r1 food H1 Hd1 Hf1 Hfood).
      rewrite bool_decide_eq_false_2; [done|].
      apply Hpos. exists r2. split; [|split; [done | by left]].
      apply list_elem_of_lookup. exists i2.
      by rewrite list_lookup_insert_ne. }
    assert (H2' : requests s1 !! i2 = Some r2).
    { rewrite Hs1. cbn [saveRequest requests].
      by rewrite list_lookup_insert_ne. }
    assert (Hfood1 : foods s1 !! fid = Some food) by (by rewrite Hs1).
    assert (Hs2 : s2 = mkStore
                         (<[fid := Food.set_isAvailable true
                                     (Food.set_status Food.available food)]>
                            (foods s1))
                         (<[i2 := Request.reject now2 msg2 r2]> (requests s1))).
    { subst s2. rewrite (Hrej s1 now2 msg2 i2 r2 food H2' Hd2 Hf2 Hfood1).
      rewrite bool_decide_eq_true_2; [done|].
      match goal with |- ?n = 0 => destruct (decide (n = 0)) as [|Hnz] end;
        [done|].
      apply Hpos in Hnz as (r & Hin & Hfid & Hst).
      apply list_elem_of_lookup in Hin as [j Hj].
      rewrite Hs1 in Hj. cbn [saveRequest requests] in Hj.
      apply list_lookup_insert_Some in Hj as [(<- & <- & _) | [Hj2 Hj]].
      { simpl in Hst. destruct Hst; discriminate. }
      apply list_lookup_insert_Some in Hj as [(<- & <- & _) | [Hj1 Hj]].
      { simpl in Hst. destruct Hst; discriminate. }
      destruct (Honly j r Hj Hfid Hst); congruence. }
    eexists food, _.
    split.
    { rewrite Hs1. cbn [saveRequest requests].
      by rewrite list_lookup_insert_eq. }
    split; [exact Hfood1|]. split; [exact Hreq|].
    split.
    { rewrite Hs2. cbn [requests].
      rewrite list_lookup_insert_eq; [done|].
      by eapply lookup_lt_Some. }
    split; [rewrite Hs2; cbn [foods]; apply lookup_insert_eq|]. done.
Qed.

Lemma revert_when_no_active_request_witness :
  let s := Examples.twoPending in
  let s1 := (updateStatus s 10 1 0 "rejected" None).1 in
  let s2 := (updateStatus s1 20 1 1 "rejected" None).1 in
  (∃ food',
     foods s1 !! 0 = Some food'
     ∧ food' = Food.set_status Food.requested Examples.food0)
  ∧ ∃ f1 f2,
      Request.status <$> requests s1 !! 0 = Some Request.rejected
      ∧ foods s1 !! 0 = Some f1
      ∧ Food.status f1 = Food.requested
      ∧ Request.status <$> requests s2 !! 1 = Some Request.rejected
      ∧ foods s2 !! 0 = Some f2
      ∧ Food.status f2 = Food.available
      ∧ Food.isAvailable (Food.availability f2) = true.
Proof.
  intros s s1 s2. split.
  - destruct (proj1 revert_when_no_active_request s 10 1 0 "rejected" None
                (Examples.pendingBy 2)
                (Food.set_status Food.requested Examples.food0) s1
                (Request.reject 10 None (Examples.pendingBy 2))
                (or_introl eq_refl) eq_refl eq_refl eq_refl)
      as (food' & Hfood & _ & Hsame & _).
    exists food'. split; [exact Hfood|]. apply Hsame.
    exists (Examples.pendingBy 3). split; [|split; [reflexivity|by left]].
    apply list_elem_of_lookup. by exists 1.
  - apply (proj2 revert_when_no_active_request s 0 1 0 1
             (Examples.pendingBy 2) (Examples.pendingBy 3)
             (Food.set_status Food.requested Examples.food0) 10 20 None None);
      try first [reflexivity | lia].
    intros [|[|j]] r Hj; [by left | by right | discriminate Hj].
Defined.

End RequestLifecycle.

(** * Properties of the chat model *)

Section ChatModel.

Import Chat.

Implicit Types (c : Chat.t) (m : Message) (xs seen : list ObjectId).

Lemma newSet_NoDup seen xs :
  NoDup xs → (∀ x, x ∈ xs → x ∉ seen) → newSet seen xs = xs.
Proof.
  revert seen. induction xs as [|x xs IH]; intros seen Hnd Hfresh; [done|].
  apply NoDup_cons in Hnd as [Hx Hnd]. simpl.
  rewrite bool_decide_eq_false_2 by (apply Hfresh; left).
  f_equal. apply IH; [done|].
  intros y Hy [->|Hin]%elem_of_cons; [done|].
  by apply (Hfresh y); [right|].
Qed.

Lemma preSave_hydrated c :
  2 ≤ length (participants c) → hydrated c → preSave c = inr c.
Proof.
  intros Hlen Hnd. unfold preSave.
  rewrite bool_decide_eq_false_2 by lia.
  rewrite (newSet_NoDup [] _ Hnd) by (intros ? _; apply not_elem_of_nil).
  by rewrite bool_decide_eq_false_2 by (intros H; by apply H).
Qed.

Lemma save_wellFormed c : wellFormed c → save c = inr c.
Proof.
  intros (Hv & Hlen & Hnd). unfold save. rewrite Hv.
  by apply preSave_hydrated.
Qed.

Lemma validateMessage_cast now x :
  validateMessage (castMessage now x)
  = negb (bool_decide (trim (f_content x) = ""))
    && bool_decide (String.length (trim (f_content x)) ≤ 1000)
    && bool_decide (default "text" (f_messageType x) ∈ messageTypes).
Proof. reflexivity. Qed.

Lemma validateMessage_sendable now x :
  sendable (f_content x) →
  default "text" (f_messageType x) ∈ messageTypes →
  validateMessage (castMessage now x) = true.
Proof.
  intros [Hne Hlen] Hty. rewrite validateMessage_cast.
  rewrite (bool_decide_eq_false_2 _ Hne), (bool_decide_eq_true_2 _ Hlen).
  by rewrite (bool_decide_eq_true_2 _ Hty).
Qed.

Lemma validateMessage_markRead now u m :
  validateMessage (markRead now u m) = validateMessage m.
Proof. unfold markRead. by destruct (_ && _). Qed.

Lemma forallb_markRead now u (l : list Message) :
  forallb validateMessage (markRead now u <$> l)
  = forallb validateMessage l.
Proof.
  induction l as [|x l IH]; [done|]. rewrite fmap_cons. cbn [forallb].
  by rewrite validateMessage_markRead, IH.
Qed.

Lemma wellFormed_pushed c m last u d :
  wellFormed c → validateMessage m = true →
  from_option validateMessage true last = true →
  wellFormed
    (mk (participants c) (foodItem c) (messages c ++ [m]) last u
        (isActive c) d).
Proof.
  intros (Hv & Hlen & Hnd) Hm Hlast. split; [|done].
  unfold validate in *. simpl.
  apply andb_true_iff in Hv as [[Hf Hms]%andb_true_iff _].
  rewrite Hf, forallb_app, Hms. simpl. by rewrite Hm, Hlast.
Qed.

(** [addMessage] on a well-formed chat, with content and type that
    pass the message schema. *)
Lemma addMessage_ok now u content ty md c :
  wellFormed c → sendable content →
  default "text" ty ∈ messageTypes →
  let m :=
    castMessage now
      (mkMessageFields u content (Some (default "text" ty))
         (md_mediaUrl md) (md_mediaCaption md) None) in
  let c' :=
    mk (participants c) (foodItem c) (messages c ++ [m]) (Some m)
       (foldl (bumpUnread u) (unreadCount c) (participants c))
       (isActive c) now in
  addMessage now u content ty md c = inr c' ∧ wellFormed c'.
Proof.
  intros Hwf Hs Hty m c'.
  assert (Hm : validateMessage m = true)
    by (by apply validateMessage_sendable).
  assert (Hwf' : wellFormed c') by (by apply wellFormed_pushed).
  split; [|done]. unfold addMessage. by apply save_wellFormed.
Qed.

Lemma markAsRead_ok now u c :
  wellFormed c →
  let c' :=
    mk (participants c) (foodItem c) (markRead now u <$> messages c)
       (lastMessage c) (<[u := 0]> (unreadCount c)) (isActive c)
       (lastActivity c) in
  markAsRead now u c = inr c' ∧ wellFormed c'.
Proof.
  intros (Hv & Hlen & Hnd) c'.
  assert (Hwf' : wellFormed c').
  { split; [|done]. unfold validate in *. simpl.
    apply andb_true_iff in Hv as [[Hf Hms]%andb_true_iff Hl].
    by rewrite Hf, Hl, forallb_markRead, Hms. }
  split; [|done]. unfold markAsRead. by apply save_wellFormed.
Qed.

Lemma markRead_idem now1 now2 u m :
  markRead now2 u (markRead now1 u m) = markRead now1 u m.
Proof.
  unfold markRead. destruct (isRead m) eqn:Hr; simpl.
  - by rewrite Hr.
  - case_bool_decide; simpl; [done|]. rewrite Hr. simpl.
    rewrite bool_decide_eq_false_2; [done|]. by intros Hne.
Qed.

Lemma sender_markRead now u m : sender (markRead now u m) = sender m.
Proof. unfold markRead. by destruct (_ && _). Qed.

(** With the two participants [a] and [b] of different users, a
    message of [a]'s user bumps the other user's counter only. *)
Lemma bumpUnread_pair (a b : ObjectId) (u : gmap nat nat) :
  oid_hex a ≠ oid_hex b →
  foldl (bumpUnread (oid_hex a)) u [a; b]
  = <[oid_hex b := default 0 (u !! oid_hex b) + 1]> u.
Proof.
  intros Hne. simpl. unfold bumpUnread at 2.
  rewrite bool_decide_eq_false_2 by (intros H; by apply H).
  unfold bumpUnread. by rewrite bool_decide_eq_true_2 by done.
Qed.

Lemma addMessage_pair (a b : ObjectId) now text ty md c :
  wellFormed c → participants c = [a; b] → oid_hex a ≠ oid_hex b →
  sendable text → default "text" ty ∈ messageTypes →
  let m :=
    castMessage now
      (mkMessageFields (oid_hex a) text (Some (default "text" ty))
         (md_mediaUrl md) (md_mediaCaption md) None) in
  let c' :=
    mk [a; b] (foodItem c) (messages c ++ [m]) (Some m)
       (<[oid_hex b := getUnreadCount (oid_hex b) c + 1]> (unreadCount c))
       (isActive c) now in
  addMessage now (oid_hex a) text ty md c = inr c' ∧ wellFormed c'.
Proof.
  intros Hwf Hps Hne Hs Hty m c'.
  pose proof (addMessage_ok now (oid_hex a) text ty md c Hwf Hs Hty) as Hok.
  rewrite Hps, bumpUnread_pair in Hok by done. exact Hok.
Qed.

(** *** Unread counters *)

(** C6: in a chat of A and B, a message appended by A is added to the
    log, becomes [lastMessage], sets [lastActivity], raises B's unread
    counter by one and leaves A's alone; after three messages of A in
    a new chat B's counter is 3, and after B's [markAsRead] it is 0
    and the three messages are read. *)
Theorem unread_bookkeeping (a b : ObjectId) c :
  wellFormed c → participants c = [a; b] → oid_hex a ≠ oid_hex b →
  (∀ now text ty md,
     sendable text → default "text" ty ∈ messageTypes →
     ∃ c' m,
       addMessage now (oid_hex a) text ty md c = inr c'
       ∧ messages c' = messages c ++ [m]
       ∧ sender m = oid_hex a
       ∧ content m = trim text
       ∧ lastMessage c' = Some m
       ∧ lastActivity c' = now
       ∧ unreadCount c'
         = <[oid_hex b := getUnreadCount (oid_hex b) c + 1]> (unreadCount c)
       ∧ getUnreadCount (oid_hex a) c' = getUnreadCount (oid_hex a) c)
  ∧
  (messages c = [] → getUnreadCount (oid_hex b) c = 0 →
   ∀ t1 t2 t3 t4 x1 x2 x3 md1 md2 md3,
     sendable x1 → sendable x2 → sendable x3 →
     ∃ c1 c2 c3 c4,
       addMessage t1 (oid_hex a) x1 None md1 c = inr c1
       ∧ addMessage t2 (oid_hex a) x2 None md2 c1 = inr c2
       ∧ addMessage t3 (oid_hex a) x3 None md3 c2 = inr c3
       ∧ getUnreadCount (oid_hex b) c3 = 3
       ∧ markAsRead t4 (oid_hex b) c3 = inr c4
       ∧ getUnreadCount (oid_hex b) c4 = 0
       ∧ length (messages c4) = 3
       ∧ Forall (λ m, isRead m = true) (messages c4)).
Proof.
  intros Hwf Hps Hne.
  assert (Htext : default "text" None ∈ messageTypes) by (by left).
  split.
  - intros now text ty md Hs Hty.
    destruct (addMessage_pair a b now text ty md c Hwf Hps Hne Hs Hty)
      as [Hadd _].
    eexists _, _. split; [exact Hadd|]. simpl.
    repeat split.
    unfold getUnreadCount. simpl. by rewrite lookup_insert_ne.
  - intros Hnil Hzero t1 t2 t3 t4 x1 x2 x3 md1 md2 md3 Hs1 Hs2 Hs3.
    destruct (addMessage_pair a b t1 x1 None md1 c Hwf Hps Hne Hs1 Htext)
      as [Hadd1 Hwf1].
    set (c1 := mk _ _ _ _ _ _ t1) in Hadd1, Hwf1.
    destruct (addMessage_pair a b t2 x2 None md2 c1 Hwf1 eq_refl Hne Hs2 Htext)
      as [Hadd2 Hwf2].
    set (c2 := mk _ _ _ _ _ _ t2) in Hadd2, Hwf2.
    destruct (addMessage_pair a b t3 x3 None md3 c2 Hwf2 eq_refl Hne Hs3 Htext)
      as [Hadd3 Hwf3].
    set (c3 := mk _ _ _ _ _ _ t3) in Hadd3, Hwf3.
    destruct (markAsRead_ok t4 (oid_hex b) c3 Hwf3) as [Hread _].
    eexists c1, c2, c3, _.
    split; [exact Hadd1|]. split; [exact Hadd2|]. split; [exact Hadd3|].
    split.
    { assert (H1 : getUnreadCount (oid_hex b) c1 = 1).
      { unfold getUnreadCount at 1. unfold c1. cbn [unreadCount].
        rewrite lookup_insert_eq. simpl. lia. }
      assert (H2 : getUnreadCount (oid_hex b) c2 = 2).
      { unfold getUnreadCount at 1. unfold c2. cbn [unreadCount].
        rewrite lookup_insert_eq. simpl. lia. }
      unfold getUnreadCount at 1. unfold c3. cbn [unreadCount].
      rewrite lookup_insert_eq. simpl. lia. }
    split; [exact Hread|].
    split; [unfold getUnreadCount; simpl; by rewrite lookup_insert_eq|].
    simpl. rewrite Hnil. simpl. split; [done|].
    unfold markRead. simpl.
    rewrite !bool_decide_eq_true_2 by done. simpl.
    repeat constructor.
Qed.

Lemma wellFormed_chatAB : wellFormed Examples.chatAB.
Proof.
  split; [reflexivity|]. split; [simpl; lia|].
  unfold hydrated. simpl.
  apply NoDup_cons. split; [|apply NoDup_singleton].
  intros Hin%list_elem_of_singleton. discriminate Hin.
Defined.

Lemma sendable_hello : sendable "hello".
Proof. split; [vm_compute; discriminate | vm_compute; lia]. Defined.

Lemma unread_bookkeeping_witness :
  ∃ c1 c2 c3 c4,
    addMessage 10 1 "hello" None Examples.noMedia Examples.chatAB = inr c1
    ∧ addMessage 20 1 "hello" None Examples.noMedia c1 = inr c2
    ∧ addMessage 30 1 "hello" None Examples.noMedia c2 = inr c3
    ∧ getUnreadCount 2 c3 = 3
    ∧ markAsRead 40 2 c3 = inr c4
    ∧ getUnreadCount 2 c4 = 0
    ∧ length (messages c4) = 3
    ∧ Forall (λ m, isRead m = true) (messages c4).
Proof.
  apply (proj2 (unread_bookkeeping Examples.oidA Examples.oidB
                  Examples.chatAB wellFormed_chatAB eq_refl
                  ltac:(vm_compute; lia))
           eq_refl eq_refl 10 20 30 40 "hello" "hello" "hello"
           Examples.noMedia Examples.noMedia Examples.noMedia);
    apply sendable_hello.
Defined.

(** *** markAsRead twice *)

Lemma wellFormed_chatTalk : wellFormed Examples.chatTalk.
Proof.
  split; [reflexivity|]. split; [simpl; lia|].
  unfold hydrated. simpl.
  apply NoDup_cons. split; [|apply NoDup_singleton].
  intros Hin%list_elem_of_singleton. discriminate Hin.
Defined.

(** What [new Set] returns has no object twice, and nothing of what was
    seen before. *)
Lemma newSet_fresh seen xs :
  NoDup (newSet seen xs) ∧ ∀ x, x ∈ newSet seen xs → x ∉ seen.
Proof.
  revert seen. induction xs as [|x xs IH]; intros seen; simpl.
  - split; [constructor | by intros ? ?%elem_of_nil].
  - case_bool_decide as Hx; [apply IH|].
    destruct (IH (x :: seen)) as [Hnd Hout]. split.
    + apply NoDup_cons. split; [|done].
      intros Hin. apply (Hout x Hin). by left.
    + intros y [->|Hy]%elem_of_cons; [done|].
      intros Hseen. apply (Hout y Hy). by right.
Qed.

Lemma newSet_idem xs : newSet [] (newSet [] xs) = newSet [] xs.
Proof.
  destruct (newSet_fresh [] xs) as [Hnd _].
  apply newSet_NoDup; [done|]. intros ? _. apply not_elem_of_nil.
Qed.

(** The document a successful save stores: the one saved, with the
    participants the hook leaves. *)
Lemma save_inr c c' :
  save c = inr c' →
  validate c = true
  ∧ 2 ≤ length (participants c)
  ∧ c' = set_participants (newSet [] (participants c)) c.
Proof.
  unfold save, preSave. destruct (validate c); [|done].
  case_bool_decide as Hlen; [done|].
  case_bool_decide as Hdup; intros [= <-].
  - split; [done|]. split; [lia|done].
  - split; [done|]. split; [lia|].
    assert (Hnd : newSet [] (participants c) = participants c).
    { clear Hlen. revert Hdup.
      generalize (@nil ObjectId).
      induction (participants c) as [|x xs IH]; intros seen; simpl; [done|].
      case_bool_decide.
      - intros Hl. exfalso.
        assert (Hle : ∀ ys seen', length (newSet seen' ys) ≤ length ys).
        { induction ys as [|y ys IHy]; intros seen'; simpl; [done|].
          case_bool_decide; simpl; [specialize (IHy seen'); lia|].
          specialize (IHy (y :: seen')). lia. }
        specialize (Hle xs seen). lia.
      - simpl. intros [= Hl]. f_equal. by apply IH. }
    rewrite Hnd. by destruct c.
Qed.

(** Whether a save is refused does not depend on the read marks. *)
Lemma markAsRead_refused now1 now2 u c e :
  markAsRead now1 u c = inl e → markAsRead now2 u c = inl e.
Proof.
  unfold markAsRead, save, validate, preSave. simpl.
  rewrite !forallb_markRead.
  destruct (_ && _); [|done].
  case_bool_decide; [done|]. by case_bool_decide.
Qed.

(** A second [markAsRead] that succeeds stores what the first stored. *)
Lemma markAsRead_again now1 now2 u c c1 c2 :
  markAsRead now1 u c = inr c1 → markAsRead now2 u c1 = inr c2 → c2 = c1.
Proof.
  unfold markAsRead. intros (_ & _ & ->)%save_inr (_ & _ & ->)%save_inr.
  unfold set_participants, set_unreadCount, set_messages. simpl.
  rewrite newSet_idem, insert_insert_eq. f_equal.
  rewrite <- list_fmap_compose. apply list_fmap_ext.
  intros ? m _. apply markRead_idem.
Qed.

(** C7: [PUT /:id/read] twice in a row leaves the collection, whatever
    it holds, as the first call left it.  For a participant of a chat
    as it is stored (valid, with its two participants or more), both
    calls are answered 200; after the first call the user's counter is
    0 and the other counters are as before; the log has the same
    messages in the same order, each with its sender, content, type,
    media and timestamp; every message of another sender is read,
    those that were unread with the time of the first call as
    [readAt]; the user's own messages and the messages already read
    are untouched; nothing else of the chat changes. *)
Theorem markRead_idempotent (chats : Collection) now1 now2 u id :
  (ChatRoutes.putRead (ChatRoutes.putRead chats now1 u id).1 now2 u id).1
  = (ChatRoutes.putRead chats now1 u id).1
  ∧
  ∀ c,
  chats !! id = Some c → wellFormed c → isParticipant u c = true →
  ∃ c1,
    ChatRoutes.putRead chats now1 u id
    = (<[id := c1]> chats, ChatRoutes.Sent 200)
    ∧ ChatRoutes.putRead (<[id := c1]> chats) now2 u id
      = (<[id := c1]> chats, ChatRoutes.Sent 200)
    ∧ markAsRead now2 u c1 = inr c1
    ∧ unreadCount c1 !! u = Some 0
    ∧ (∀ v, v ≠ u → unreadCount c1 !! v = unreadCount c !! v)
    ∧ Forall (λ m, sender m ≠ u → isRead m = true) (messages c1)
    ∧ length (messages c1) = length (messages c)
    ∧ (∀ i m, messages c !! i = Some m →
         ∃ m1, messages c1 !! i = Some m1
               ∧ sender m1 = sender m
               ∧ content m1 = content m
               ∧ messageType m1 = messageType m
               ∧ mediaUrl m1 = mediaUrl m
               ∧ mediaCaption m1 = mediaCaption m
               ∧ timestamp m1 = timestamp m
               ∧ (sender m = u ∨ isRead m = true → m1 = m)
               ∧ (sender m ≠ u → isRead m = false →
                  isRead m1 = true ∧ readAt m1 = Some now1))
    ∧ participants c1 = participants c
    ∧ foodItem c1 = foodItem c
    ∧ lastMessage c1 = lastMessage c
    ∧ isActive c1 = isActive c
    ∧ lastActivity c1 = lastActivity c.
Proof.
  split.
  { unfold ChatRoutes.putRead at 2 3.
    destruct (chats !! id) as [c|] eqn:Hid.
    2: { cbn [fst]. unfold ChatRoutes.putRead. by rewrite Hid. }
    destruct (isParticipant u c) eqn:Hp; cbn [negb].
    2: { cbn [fst]. unfold ChatRoutes.putRead. by rewrite Hid, Hp. }
    destruct (markAsRead now1 u c) as [e|c1] eqn:H1; cbn [fst].
    { unfold ChatRoutes.putRead. rewrite Hid, Hp. cbn [negb].
      by rewrite (markAsRead_refused _ now2 _ _ _ H1). }
    assert (Hlt : id < length chats) by (by eapply lookup_lt_Some).
    unfold ChatRoutes.putRead. rewrite list_lookup_insert_eq by done.
    destruct (isParticipant u c1); cbn [negb]; [|done].
    destruct (markAsRead now2 u c1) as [e|c2] eqn:H2; cbn [fst]; [done|].
    rewrite list_insert_insert_eq.
    by rewrite (markAsRead_again _ _ _ _ _ _ H1 H2). }
  intros c Hid Hwf Hpart.
  set (c1 := mk (participants c) (foodItem c) (markRead now1 u <$> messages c)
               (lastMessage c) (<[u := 0]> (unreadCount c)) (isActive c)
               (lastActivity c)).
  assert (Hwf1 : wellFormed c1).
  { destruct Hwf as (Hv & Hlen & Hnd). split; [|done].
    unfold validate in *. simpl.
    apply andb_true_iff in Hv as [[Hf Hms]%andb_true_iff Hl].
    by rewrite Hf, Hl, forallb_markRead, Hms. }
  assert (Hread1 : markAsRead now1 u c = inr c1).
  { unfold markAsRead. by apply save_wellFormed. }
  assert (Hread2 : markAsRead now2 u c1 = inr c1).
  { unfold markAsRead. cbv zeta.
    assert (Hsame : set_unreadCount
                      (<[u := 0]>
                         (unreadCount
                            (set_messages (markRead now2 u <$> messages c1) c1)))
                      (set_messages (markRead now2 u <$> messages c1) c1)
                    = c1).
    { unfold c1, set_unreadCount, set_messages. simpl.
      rewrite insert_insert_eq. f_equal.
      rewrite <- list_fmap_compose. apply list_fmap_ext.
      intros ? m _. apply markRead_idem. }
    rewrite Hsame. by apply save_wellFormed. }
  assert (Hlt : id < length chats) by (by eapply lookup_lt_Some).
  exists c1. split; [|split; [|split; [|split; [|split; [|split; [|split;
    [|split]]]]]]].
  - unfold ChatRoutes.putRead. by rewrite Hid, Hpart, Hread1.
  - unfold ChatRoutes.putRead.
    rewrite list_lookup_insert_eq by done.
    assert (isParticipant u c1 = true) as -> by exact Hpart.
    by rewrite Hread2, list_insert_insert_eq.
  - exact Hread2.
  - unfold c1. simpl. apply lookup_insert_eq.
  - intros v Hv. unfold c1. simpl. by apply lookup_insert_ne.
  - unfold c1. simpl. apply Forall_fmap, Forall_forall.
    intros m _. unfold compose, markRead.
    destruct (isRead m) eqn:Hr; simpl; [done|].
    case_bool_decide; simpl; done.
  - unfold c1. simpl. apply length_fmap.
  - intros i m Hi. exists (markRead now1 u m). unfold c1. simpl.
    rewrite list_lookup_fmap, Hi. split; [done|].
    unfold markRead. destruct (isRead m) eqn:Hr; simpl.
    + repeat split; done.
    + case_bool_decide as Hs; simpl; repeat split; try done.
      intros [Heq | Habs]; [done | discriminate Habs].
  - done.
Qed.

Lemma markRead_idempotent_witness :
  ∃ c1,
    ChatRoutes.putRead [Examples.chatTalk] 40 2 0
    = ([c1], ChatRoutes.Sent 200)
    ∧ ChatRoutes.putRead [c1] 50 2 0 = ([c1], ChatRoutes.Sent 200)
    ∧ getUnreadCount 2 Examples.chatTalk = 1
    ∧ getUnreadCount 2 c1 = 0
    ∧ getUnreadCount 1 c1 = 1
    ∧ messages c1
      = [ mkMessage 1 "is it still there?" "text" None None true (Some 40) 10;
          Examples.answerB; Examples.thanksA ].
Proof.
  destruct (proj2 (markRead_idempotent [Examples.chatTalk] 40 50 2 0)
              Examples.chatTalk eq_refl wellFormed_chatTalk eq_refl)
    as (c1 & Hfirst & Hsecond & _).
  exists c1. split; [exact Hfirst|]. split; [exact Hsecond|].
  vm_compute in Hfirst. injection Hfirst as <-.
  repeat split; reflexivity.
Defined.

(** *** The length bound on message content *)

(** C8, as stated, fails on padded content: 1000 blanks are exactly
    at the bound and are refused (trimmed, the content is empty),
    while 1000 letters and a blank are one over the bound and are
    stored, with answer 201. *)
Lemma length_bound_is_on_trimmed_content :
  String.length Examples.blank1000 = 1000
  ∧ ChatRoutes.postMessage [Examples.chatAB] 9 1 0
      (ChatRoutes.mkMessageBody Examples.blank1000 (Some "text") None None)
    = ([Examples.chatAB],
       ChatRoutes.Next (ValidationError "Chat validation failed"))
  ∧ String.length Examples.padded1001 = 1001
  ∧ ∃ c', ChatRoutes.postMessage [Examples.chatAB] 9 1 0
            (ChatRoutes.mkMessageBody Examples.padded1001 (Some "text")
               None None)
          = ([c'], ChatRoutes.Sent 201).
Proof.
  split; [vm_compute; reflexivity|]. split; [vm_compute; reflexivity|].
  split; [vm_compute; reflexivity|]. eexists. vm_compute. reflexivity.
Qed.

Lemma addMessage_invalid now u text ty md c :
  validateMessage
    (castMessage now
       (mkMessageFields u text (Some (default "text" ty))
          (md_mediaUrl md) (md_mediaCaption md) None)) = false →
  addMessage now u text ty md c
  = inl (ValidationError "Chat validation failed").
Proof.
  intros Hbad. unfold addMessage, save, validate. simpl.
  by rewrite Hbad, andb_false_r.
Qed.

(** C8 (amended): the bound is on the trimmed content.  A text message
    posted by a participant to a well-formed chat is stored (answer
    201) when its trimmed content has between 1 and 1000 characters,
    and refused with a [ValidationError], the collection unchanged,
    when the trimmed content has more than 1000 characters or is
    empty. *)
Theorem content_length_bound (chats : Collection) now u id body c :
  chats !! id = Some c → wellFormed c → isParticipant u c = true →
  default "text" (ChatRoutes.b_messageType body) = "text" →
  let text := ChatRoutes.b_content body in
  (1 ≤ String.length (trim text) ≤ 1000 →
   ∃ c' m,
     ChatRoutes.postMessage chats now u id body
     = (<[id := c']> chats, ChatRoutes.Sent 201)
     ∧ messages c' = messages c ++ [m] ∧ content m = trim text)
  ∧ (1000 < String.length (trim text) →
     ChatRoutes.postMessage chats now u id body
     = (chats, ChatRoutes.Next (ValidationError "Chat validation failed")))
  ∧ (trim text = "" →
     ChatRoutes.postMessage chats now u id body
     = (chats, ChatRoutes.Next (ValidationError "Chat validation failed"))).
Proof.
  intros Hid Hwf Hpart Hty text. unfold ChatRoutes.postMessage.
  rewrite Hid, Hpart. cbn [negb]. split; [|split].
  - intros [Hlo Hhi].
    assert (Hs : sendable text).
    { split; [|done]. intros Hempty. rewrite Hempty in Hlo. simpl in Hlo. lia. }
    assert (Hin : default "text" (ChatRoutes.b_messageType body) ∈ messageTypes)
      by (rewrite Hty; by left).
    destruct (addMessage_ok now u text (ChatRoutes.b_messageType body)
                (mkMediaData (ChatRoutes.b_mediaUrl body)
                   (ChatRoutes.b_mediaCaption body)) c Hwf Hs Hin)
      as [Hadd _].
    fold text. rewrite Hadd. eexists _, _. split; [reflexivity|]. done.
  - intros Hlong. fold text. rewrite addMessage_invalid; [done|].
    rewrite validateMessage_cast. cbn [f_content].
    rewrite (bool_decide_eq_false_2 (_ ≤ 1000)) by lia.
    by rewrite andb_false_r.
  - intros Hempty. fold text. rewrite addMessage_invalid; [done|].
    rewrite validateMessage_cast. cbn [f_content].
    by rewrite (bool_decide_eq_true_2 _ Hempty).
Qed.

Lemma content_length_bound_witness :
  let post text :=
    ChatRoutes.postMessage [Examples.chatAB] 9 1 0
      (ChatRoutes.mkMessageBody text None None None) in
  (∃ c' m,
     post (Examples.chars 1000 "a")
     = (<[0 := c']> [Examples.chatAB], ChatRoutes.Sent 201)
     ∧ messages c' = messages Examples.chatAB ++ [m]
     ∧ content m = trim (Examples.chars 1000 "a"))
  ∧ post (Examples.chars 1001 "a")
    = ([Examples.chatAB],
       ChatRoutes.Next (ValidationError "Chat validation failed"))
  ∧ post ""
    = ([Examples.chatAB],
       ChatRoutes.Next (ValidationError "Chat validation failed")).
Proof.
  intros post. split; [|split].
  - apply (proj1 (content_length_bound [Examples.chatAB] 9 1 0
                    (ChatRoutes.mkMessageBody (Examples.chars 1000 "a")
                       None None None)
                    Examples.chatAB eq_refl wellFormed_chatAB eq_refl eq_refl)).
    vm_compute. lia.
  - apply (proj1 (proj2 (content_length_bound [Examples.chatAB] 9 1 0
                           (ChatRoutes.mkMessageBody (Examples.chars 1001 "a")
                              None None None)
                           Examples.chatAB eq_refl wellFormed_chatAB eq_refl
                           eq_refl))).
    vm_compute. lia.
  - apply (proj2 (proj2 (content_length_bound [Examples.chatAB] 9 1 0
                           (ChatRoutes.mkMessageBody "" None None None)
                           Examples.chatAB eq_refl wellFormed_chatAB eq_refl
                           eq_refl))).
    reflexivity.
Defined.

(** *** The pre-save hook *)

(** C9 (defect of the pre-save hook): the hook is there to keep two
    participants or more and no user twice (its comments say "ensure
    participants array has at least 2 users" and "Ensure participants
    are unique"), and it does neither.  The [Set] it builds compares
    ObjectId objects, not ids, and the length is checked before the
    duplicates are dropped: [findOrCreateChat] for two ObjectId objects
    of one user stores a chat with that user twice, and called with one
    ObjectId object twice it stores a chat with a single participant.
    Neither save is rejected. *)
Lemma presave_breaks_participant_invariant :
  (findOrCreateChat [] 5 Examples.oidA (mkObjectId 103 1) 0
   = ([Examples.chatTwin], inr (0, Examples.chatTwin))
   ∧ ¬ NoDup (oid_hex <$> participants Examples.chatTwin))
  ∧ (∃ c', findOrCreateChat [] 5 Examples.oidA Examples.oidA 0
           = ([c'], inr (0, c'))
           ∧ length (participants c') = 1).
Proof.
  split.
  - split; [vm_compute; reflexivity|].
    simpl. intros [Hnot _]%NoDup_cons. apply Hnot. by left.
  - eexists. split; [vm_compute; reflexivity|]. reflexivity.
Qed.

(** What the hook does get right: a save of a valid chat document is
    rejected, with the error "Chat must have at least 2 participants",
    when the participant list has fewer than 2 entries; with 2 entries
    or more it is never rejected; and when these entries are of
    pairwise different users the document is stored unchanged. *)
Theorem presave_participants c :
  validate c = true →
  (length (participants c) < 2 →
   save c = inl (JsError "Chat must have at least 2 participants"))
  ∧ (2 ≤ length (participants c) → ∃ c', save c = inr c')
  ∧ (2 ≤ length (participants c) →
     NoDup (oid_hex <$> participants c) → save c = inr c).
Proof.
  intros Hv. unfold save. rewrite Hv. split; [|split].
  - intros Hlt. unfold preSave. by rewrite bool_decide_eq_true_2.
  - intros Hge. unfold preSave. rewrite bool_decide_eq_false_2 by lia.
    case_bool_decide; eauto.
  - intros Hge Hnd. apply preSave_hydrated; [done|].
    by apply NoDup_fmap_1 in Hnd.
Qed.

Lemma presave_participants_witness :
  save (Chat.new 5 [Examples.oidA] (Some 0))
  = inl (JsError "Chat must have at least 2 participants")
  ∧ (∃ c', save Examples.chatAliased = inr c')
  ∧ save Examples.chatAB = inr Examples.chatAB.
Proof.
  split; [|split].
  - apply (proj1 (presave_participants (Chat.new 5 [Examples.oidA] (Some 0))
                    eq_refl)).
    simpl. lia.
  - apply (proj1 (proj2 (presave_participants Examples.chatAliased eq_refl))).
    simpl. lia.
  - apply (proj2 (proj2 (presave_participants Examples.chatAB eq_refl)));
      [simpl; lia|].
    simpl. refine (bool_decide_unpack _ _). vm_compute. exact I.
Defined.

End ChatModel.

(** * Properties of the realtime gateway *)

Section Gateway.

Import Socket.

Lemma substring_length n (s : string) :
  String.length (String.substring 0 n s) = n `min` String.length s.
Proof.
  revert s. induction n as [|n IH]; intros [|a s]; simpl; try done.
  by rewrite IH.
Qed.

Lemma substring_prefix n (s : string) :
  ∃ rest, s = String.substring 0 n s +:+ rest.
Proof.
  revert s. induction n as [|n IH]; intros [|a s]; simpl.
  - by exists "".
  - by exists (String a s).
  - by exists "".
  - destruct (IH s) as [rest Hrest]. exists rest.
    change (String a (String.substring 0 n s) +:+ rest)
      with (String a (String.substring 0 n s +:+ rest)).
    by rewrite <- Hrest.
Qed.

(** The handler on a chat that exists: the message is pushed and
    saved, whoever the sender is. *)
Lemma sendMessage_existing (chats : Chat.Collection) now sock data c :
  chats !! chatId data = Some c →
  Chat.wellFormed c →
  Chat.sendable (content data) →
  sendMessage chats now sock data
  = (<[chatId data :=
         Chat.set_messages (Chat.messages c ++ [pushed now sock data]) c]>
       chats,
     fanOut now sock data).
Proof.
  intros Hid Hwf Hs. unfold sendMessage, trySendMessage. rewrite Hid.
  fold (pushed now sock data).
  assert (Hm : Chat.validateMessage (pushed now sock data) = true).
  { apply validateMessage_sendable; [done | by left]. }
  assert (Hlast : from_option Chat.validateMessage true (Chat.lastMessage c)
                  = true).
  { destruct Hwf as [Hv _]. unfold Chat.validate in Hv.
    by apply andb_true_iff in Hv as [_ ?]. }
  pose proof (wellFormed_pushed c _ (Chat.lastMessage c) (Chat.unreadCount c)
                (Chat.lastActivity c) Hwf Hm Hlast) as Hwf'.
  unfold Chat.set_messages.
  by rewrite (save_wellFormed _ Hwf').
Qed.

(** The handler on a chat id that resolves to nothing: the chat it
    builds has no [foodItem], its save is refused, and the sender gets
    [message-error]. *)
Lemma sendMessage_missing (chats : Chat.Collection) now sock data :
  chats !! chatId data = None →
  sendMessage chats now sock data
  = (chats, [(ToSelf (socketId sock), message_error "Failed to send message")]).
Proof.
  intros Hid. unfold sendMessage, trySendMessage. by rewrite Hid.
Qed.

(** *** send-message *)

(** C5 (defect of the handler): for a chat id that resolves to
    nothing the handler sets out to create the chat (its comments say
    "Create or find existing chat" and "Create new chat if it doesn't
    exist"), but the document it builds has no [foodItem], which the
    schema requires, so the save throws.  A and B already have a chat
    about listing 0, which the chat model's [findOrCreateChat]
    resolves; A's [send-message] to B with a chat id that does not
    exist neither resolves that chat nor creates one: nothing is
    stored, nothing is broadcast or notified, and A's socket gets
    [message-error]. *)
Lemma send_message_does_not_find_or_create :
  let chats := [Examples.chatAB] in
  let data := mkSendMessage 7 "hello" 2 in
  (Chat.findOrCreateChat chats 9 Examples.oidA Examples.oidB 0).2
  = inr (0, Examples.chatAB)
  ∧ sendMessage chats 9 Examples.sockA data
    = (chats, [(ToSelf 41, message_error "Failed to send message")]).
Proof. split; vm_compute; reflexivity. Qed.

(** The path of the handler that works: for a [send-message] whose
    chat id names a well-formed chat and whose content passes the
    message schema, the handler looks the chat up by id, appends the
    message (sender: the socket's user, content trimmed) and saves the
    chat, emits
    [new-message] with the sender's id, name and avatar to every
    socket in the room of that chat id, and emits
    [message-notification] with the chat id, the sender's name and the
    first 50 characters of the content to the receiver's personal
    room, the sending socket excepted. *)
Theorem send_message_fan_out (chats : Chat.Collection) (rooms : Rooms)
    now sock data c :
  chats !! chatId data = Some c →
  Chat.wellFormed c →
  Chat.sendable (content data) →
  ∃ m preview,
    sendMessage chats now sock data
    = (<[chatId data := Chat.set_messages (Chat.messages c ++ [m]) c]> chats,
       [ (ToRoom (ChatRoom (chatId data)),
          new_message
            (mkNewMessage (chatId data)
               (mkSenderProfile (_id (user sock)) (name (user sock))
                  (avatar (user sock)))
               (content data) now));
         (ToRoomExcept (UserRoom (receiverId data)) (socketId sock),
          message_notification (chatId data) (name (user sock)) preview) ])
    ∧ Chat.sender m = oid_hex (userId sock)
    ∧ Chat.content m = trim (content data)
    ∧ recipients rooms (ToRoom (ChatRoom (chatId data)))
      = rooms (ChatRoom (chatId data))
    ∧ recipients rooms
        (ToRoomExcept (UserRoom (receiverId data)) (socketId sock))
      = rooms (UserRoom (receiverId data)) ∖ {[socketId sock]}
    ∧ String.length preview = 50 `min` String.length (content data)
    ∧ ∃ rest, content data = preview +:+ rest.
Proof.
  intros Hid Hwf Hs.
  exists (pushed now sock data), (String.substring 0 50 (content data)).
  split; [by apply sendMessage_existing|].
  repeat split; [apply substring_length | apply substring_prefix].
Qed.

Lemma send_message_fan_out_witness :
  let data := mkSendMessage 0 "hello" 2 in
  ∃ m preview,
    sendMessage [Examples.chatAB] 9 Examples.sockA data
    = (<[0 := Chat.set_messages (Chat.messages Examples.chatAB ++ [m])
                Examples.chatAB]> [Examples.chatAB],
       [ (ToRoom (ChatRoom 0),
          new_message
            (mkNewMessage 0
               (mkSenderProfile Examples.oidA "Asha" (Some "asha.png"))
               "hello" 9));
         (ToRoomExcept (UserRoom 2) 41,
          message_notification 0 "Asha" preview) ])
    ∧ Chat.sender m = 1
    ∧ Chat.content m = trim "hello"
    ∧ recipients Examples.rooms0 (ToRoom (ChatRoom 0))
      = Examples.rooms0 (ChatRoom 0)
    ∧ recipients Examples.rooms0 (ToRoomExcept (UserRoom 2) 41)
      = Examples.rooms0 (UserRoom 2) ∖ {[41]}
    ∧ String.length preview = 50 `min` String.length "hello"
    ∧ ∃ rest, "hello" = preview +:+ rest.
Proof.
  intros data.
  apply (send_message_fan_out [Examples.chatAB] Examples.rooms0 9
           Examples.sockA data Examples.chatAB eq_refl wellFormed_chatAB
           sendable_hello).
Defined.

(** C10: a [send-message] with the id of an existing (well-formed)
    chat and content that passes the message schema appends the
    message and broadcasts it without any check that the sender is a
    participant, and leaves the chat's unread counters and
    [lastMessage] as they were. *)
Theorem send_message_skips_chat_engine (chats : Chat.Collection)
    now sock data c :
  chats !! chatId data = Some c →
  Chat.wellFormed c →
  Chat.sendable (content data) →
  ∃ c' m,
    (sendMessage chats now sock data).1 !! chatId data = Some c'
    ∧ Chat.messages c' = Chat.messages c ++ [m]
    ∧ Chat.sender m = oid_hex (userId sock)
    ∧ Chat.content m = trim (content data)
    ∧ Chat.unreadCount c' = Chat.unreadCount c
    ∧ Chat.lastMessage c' = Chat.lastMessage c
    ∧ Chat.participants c' = Chat.participants c
    ∧ (ToRoom (ChatRoom (chatId data)),
       new_message
         (mkNewMessage (chatId data)
            (mkSenderProfile (_id (user sock)) (name (user sock))
               (avatar (user sock)))
            (content data) now))
      ∈ (sendMessage chats now sock data).2.
Proof.
  intros Hid Hwf Hs.
  rewrite (sendMessage_existing _ _ _ _ _ Hid Hwf Hs).
  eexists _, (pushed now sock data). cbn [fst snd].
  split; [apply list_lookup_insert_eq; by eapply lookup_lt_Some|].
  repeat split. by left.
Qed.

Lemma send_message_skips_chat_engine_witness :
  let data := mkSendMessage 0 "hello" 2 in
  let out := sendMessage [Examples.chatAB] 9 Examples.sockOutsider data in
  Chat.isParticipant 9 Examples.chatAB = false
  ∧ ∃ c' m,
      out.1 !! 0 = Some c'
      ∧ Chat.messages c' = Chat.messages Examples.chatAB ++ [m]
      ∧ Chat.sender m = 9
      ∧ Chat.content m = trim "hello"
      ∧ Chat.unreadCount c' = Chat.unreadCount Examples.chatAB
      ∧ Chat.lastMessage c' = Chat.lastMessage Examples.chatAB
      ∧ Chat.participants c' = Chat.participants Examples.chatAB
      ∧ (ToRoom (ChatRoom 0),
         new_message
           (mkNewMessage 0
              (mkSenderProfile (mkObjectId 109 9) "Omar" None) "hello" 9))
        ∈ out.2.
Proof.
  intros data out. split; [reflexivity|].
  apply (send_message_skips_chat_engine [Examples.chatAB] 9
           Examples.sockOutsider data Examples.chatAB eq_refl
           wellFormed_chatAB sendable_hello).
Defined.

End Gateway.

(** * Further properties of the request controller *)

Section RequestControllerMore.

Import RequestController.

Implicit Types (s : Store) (r : Request.t).

(** The four ways [updateFood] can end. *)
Ltac updateFood_branches s r :=
  unfold updateFood;
  destruct (bool_decide (_ = "accepted"));
    [ destruct (foods s !! Request.foodItem r) eqn:?
    | destruct (bool_decide (_ = "cancelled") || bool_decide (_ = "rejected"));
      [ destruct (foods s !! Request.foodItem r) eqn:?;
        [ destruct (bool_decide (_ = 0)) | ]
      | ] ];
  cbn [fst snd foods requests].

Lemma updateFood_never_AppError s status r m c :
  (updateFood s status r).2 ≠ Next (AppError m c).
Proof. updateFood_branches s r; done. Qed.

(** What every branch of [updateStatus] that passes its checks does:
    it saves one new version of the request and then updates the
    listing. *)
Lemma updateStatus_cases s now user id status msg :
  (updateStatus s now user id status msg).1 = s
  ∧ (∃ m c, (updateStatus s now user id status msg).2 = Next (AppError m c))
  ∨ ∃ r r',
      requests s !! id = Some r
      ∧ (Request.foodItem r' = Request.foodItem r
         ∧ Request.donor r' = Request.donor r
         ∧ Request.receiver r' = Request.receiver r)
      ∧ updateStatus s now user id status msg
        = updateFood (saveRequest s id r') status r'.
Proof.
  unfold updateStatus.
  destruct (requests s !! id) as [r|] eqn:Hid;
    [|left; split; [done | by eexists _, _]].
  destruct (bool_decide (status = "accepted"));
    [|destruct (bool_decide (status = "rejected"));
      [|destruct (bool_decide (status = "cancelled"));
        [|destruct (bool_decide (status = "completed"));
          [|left; split; [done | by eexists _, _]]]]].
  all: match goal with
       | |- context [if negb ?b then _ else _] => destruct (negb b)
       | |- context [if ?a && ?b then _ else _] => destruct (a && b)
       end.
  all: first [ left; split; [done | by eexists _, _]
             | right; eexists r, _; split; [done | split; [|done]]; done ].
Qed.

(** X1: a refused update changes nothing. *)
Theorem refused_update_changes_nothing s now user id status msg :
  (requests s !! id = None →
   updateStatus s now user id status msg
   = (s, Next (AppError "Request not found" 404)))
  ∧ (is_Some (requests s !! id) →
     status ∉ ["accepted"; "rejected"; "cancelled"; "completed"] →
     updateStatus s now user id status msg
     = (s, Next (AppError "Invalid status" 400)))
  ∧ (∀ m c,
       (updateStatus s now user id status msg).2 = Next (AppError m c) →
       (updateStatus s now user id status msg).1 = s).
Proof.
  split; [|split].
  - intros Hnone. unfold updateStatus. by rewrite Hnone.
  - intros [r Hr] Hnot. unfold updateStatus. rewrite Hr.
    rewrite !bool_decide_eq_false_2; [done|..];
      intros ->; apply Hnot; set_solver.
  - intros m c Hresp.
    destruct (updateStatus_cases s now user id status msg)
      as [[Hs _] | (r & r' & _ & _ & Heq)]; [done|].
    rewrite Heq in Hresp. by apply updateFood_never_AppError in Hresp.
Qed.

Lemma refused_update_changes_nothing_witness :
  let s := exec Examples.store0 [OpCreate 2 Examples.body0] in
  updateStatus s 10 1 5 "accepted" None
  = (s, Next (AppError "Request not found" 404))
  ∧ updateStatus s 10 1 0 "approved" None
    = (s, Next (AppError "Invalid status" 400))
  ∧ (updateStatus s 10 3 0 "cancelled" None).1 = s.
Proof.
  intros s. split; [|split].
  - apply (proj1 (refused_update_changes_nothing s 10 1 5 "accepted" None)).
    reflexivity.
  - apply (proj1 (proj2 (refused_update_changes_nothing s 10 1 0 "approved"
                           None))).
    + eexists. reflexivity.
    + intros Hin. apply (bool_decide_pack _) in Hin. vm_compute in Hin.
      exact Hin.
  - apply (proj2 (proj2 (refused_update_changes_nothing s 10 3 0 "cancelled"
                           None))
             "Not authorized to cancel" 403).
    reflexivity.
Defined.

(** X2: an update touches one request and one listing.  Whatever the
    arguments, [updateStatus] keeps the number of requests and every
    request but the one named; that one keeps its listing, donor and
    receiver; listings other than the request's are untouched, none
    appears or disappears, and none changes donor or [isActive]. *)
Theorem updateStatus_frame s now user id status msg :
  let s' := (updateStatus s now user id status msg).1 in
  length (requests s') = length (requests s)
  ∧ (∀ j, j ≠ id → requests s' !! j = requests s !! j)
  ∧ (∀ r', requests s' !! id = Some r' →
       ∃ r, requests s !! id = Some r
            ∧ Request.foodItem r' = Request.foodItem r
            ∧ Request.donor r' = Request.donor r
            ∧ Request.receiver r' = Request.receiver r)
  ∧ (∀ fid, (∀ r, requests s !! id = Some r → Request.foodItem r ≠ fid) →
       foods s' !! fid = foods s !! fid)
  ∧ (∀ fid food', foods s' !! fid = Some food' →
       ∃ food, foods s !! fid = Some food
               ∧ Food.donor food' = Food.donor food
               ∧ Food.isActive food' = Food.isActive food)
  ∧ (∀ fid food, foods s !! fid = Some food →
       ∃ food', foods s' !! fid = Some food'
                ∧ Food.donor food' = Food.donor food
                ∧ Food.isActive food' = Food.isActive food).
Proof.
  intros s'. subst s'.
  destruct (updateStatus_cases s now user id status msg)
    as [[-> _] | (r & r' & Hid & (Hf & Hd & Hr) & ->)].
  { repeat split; eauto. }
  assert (Hlt : id < length (requests s)) by (by eapply lookup_lt_Some).
  set (s1 := saveRequest s id r').
  assert (Hreq : requests (updateFood s1 status r').1 = <[id := r']> (requests s)).
  { updateFood_branches s1 r'; done. }
  rewrite Hreq.
  split; [apply length_insert|].
  split; [intros j Hj; by apply list_lookup_insert_ne|].
  split.
  { rewrite list_lookup_insert_eq by done. intros ? [= <-]. eauto. }
  split.
  { intros fid Hfid.
    assert (Hne : Request.foodItem r' ≠ fid) by (rewrite Hf; by apply Hfid).
    updateFood_branches s1 r'; try done; by rewrite lookup_insert_ne. }
  split.
  - intros fid food'.
    updateFood_branches s1 r'; eauto;
      (destruct (decide (Request.foodItem r' = fid)) as [<-|Hne];
       [ rewrite lookup_insert_eq; intros [= <-]; eauto
       | rewrite lookup_insert_ne by done; eauto ]).
  - intros fid food.
    change (foods s !! fid) with (foods s1 !! fid). intros Hfood.
    updateFood_branches s1 r'; eauto;
      (destruct (decide (Request.foodItem r' = fid)) as [Heq|Hne];
       [ rewrite Heq in *; rewrite lookup_insert_eq; simplify_eq; eauto
       | rewrite lookup_insert_ne by done; eauto ]).
Qed.

Lemma updateStatus_frame_witness :
  let s := Examples.twoPending in
  let s' := (updateStatus s 10 1 0 "rejected" None).1 in
  requests s' !! 1 = requests s !! 1
  ∧ (∃ r, requests s !! 0 = Some r
          ∧ Request.foodItem (Request.reject 10 None (Examples.pendingBy 2))
            = Request.foodItem r
          ∧ Request.donor (Request.reject 10 None (Examples.pendingBy 2))
            = Request.donor r
          ∧ Request.receiver (Request.reject 10 None (Examples.pendingBy 2))
            = Request.receiver r)
  ∧ foods s' !! 7 = foods s !! 7
  ∧ (∃ food', foods s' !! 0 = Some food'
              ∧ Food.donor food' = 1 ∧ Food.isActive food' = true).
Proof.
  intros s s'.
  pose proof (updateStatus_frame s 10 1 0 "rejected" None)
    as (_ & Hother & Hsame & Hfood & _ & Hstays).
  split; [apply Hother; lia|].
  split; [apply Hsame; reflexivity|].
  split; [apply Hfood; intros r; vm_compute; intros [= <-]; simpl; lia|].
  apply (Hstays 0 (Food.set_status Food.requested Examples.food0)).
  reflexivity.
Defined.

Lemma updateStatus_accept s now id msg r :
  requests s !! id = Some r →
  updateStatus s now (Request.donor r) id "accepted" msg
  = updateFood (saveRequest s id (Request.accept now msg None r)) "accepted"
      (Request.accept now msg None r).
Proof.
  intros Hid. unfold updateStatus. rewrite Hid.
  rewrite (bool_decide_eq_true_2 ("accepted" = "accepted")) by done.
  by rewrite bool_decide_eq_true_2 by done.
Qed.

Lemma updateStatus_complete s now id msg r :
  requests s !! id = Some r →
  updateStatus s now (Request.donor r) id "completed" msg
  = (saveRequest s id (Request.markPickedUp now None None r),
     Json 200 (Request.markPickedUp now None None r)).
Proof.
  intros Hid. unfold updateStatus. rewrite Hid.
  rewrite (bool_decide_eq_false_2 ("completed" = "accepted")) by done.
  rewrite (bool_decide_eq_false_2 ("completed" = "rejected")) by done.
  rewrite (bool_decide_eq_false_2 ("completed" = "cancelled")) by done.
  rewrite (bool_decide_eq_true_2 ("completed" = "completed")) by done.
  by rewrite bool_decide_eq_true_2 by done.
Qed.

Lemma updateStatus_cancel s now user id msg r :
  requests s !! id = Some r →
  Request.donor r = user ∨ Request.receiver r = user →
  let r' :=
    Request.cancel now msg
      (Some (if bool_decide (Request.donor r = user)
             then Request.donor_party else Request.receiver_party)) r in
  updateStatus s now user id "cancelled" msg
  = updateFood (saveRequest s id r') "cancelled" r'.
Proof.
  intros Hid Hparty r'. subst r'. unfold updateStatus. rewrite Hid.
  rewrite (bool_decide_eq_false_2 ("cancelled" = "accepted")) by done.
  rewrite (bool_decide_eq_false_2 ("cancelled" = "rejected")) by done.
  rewrite (bool_decide_eq_true_2 ("cancelled" = "cancelled")) by done.
  destruct Hparty as [Hd | Hr].
  - by rewrite (bool_decide_eq_true_2 _ Hd), andb_false_r.
  - by rewrite (bool_decide_eq_true_2 _ Hr).
Qed.




(** X4: complete is the donor's alone and asks nothing of the request.
    Anyone else gets 403 and nothing changes; for the donor, whatever
    the request's status and whatever message is sent along, the
    request becomes [completed], the requested quantity is recorded as
    picked up at the time of the call, and no listing is touched. *)
Theorem complete_spec s now user id msg r :
  requests s !! id = Some r →
  (Request.donor r ≠ user →
   updateStatus s now user id "completed" msg
   = (s, Next (AppError "Only donor can complete" 403)))
  ∧ (Request.donor r = user →
     ∃ r',
       updateStatus s now user id "completed" msg
       = (mkStore (foods s) (<[id := r']> (requests s)), Json 200 r')
       ∧ Request.status r' = Request.completed
       ∧ Request.actualPickup r'
         = Some (Request.mkActualPickup now (Request.requestedQuantity r) "")
       ∧ Request.donorResponse r' = Request.donorResponse r).
Proof.
  intros Hid. split.
  - intros Hne. unfold updateStatus. rewrite Hid.
    rewrite (bool_decide_eq_false_2 ("completed" = "accepted")) by done.
    rewrite (bool_decide_eq_false_2 ("completed" = "rejected")) by done.
    rewrite (bool_decide_eq_false_2 ("completed" = "cancelled")) by done.
    rewrite (bool_decide_eq_true_2 ("completed" = "completed")) by done.
    by rewrite (bool_decide_eq_false_2 _ Hne).
  - intros <-. eexists. split; [by apply updateStatus_complete|]. done.
Qed.

Lemma complete_spec_witness :
  let s := exec Examples.store0 Examples.createReject in
  updateStatus s 30 2 0 "completed" None
  = (s, Next (AppError "Only donor can complete" 403))
  ∧ ∃ r',
      updateStatus s 30 1 0 "completed" (Some "done")
      = (mkStore (foods s) (<[0 := r']> (requests s)), Json 200 r')
      ∧ Request.status r' = Request.completed
      ∧ Request.actualPickup r'
        = Some (Request.mkActualPickup 30 (Request.mkQuantity 2 "servings") "")
      ∧ Request.donorResponse r'
        = Some (Request.mkDonorResponse "Request rejected" 10 None).
Proof.
  intros s.
  pose proof (complete_spec s 30 2 0 None
                (Request.reject 10 None (Examples.pendingBy 2)) eq_refl) as H2.
  pose proof (complete_spec s 30 1 0 (Some "done")
                (Request.reject 10 None (Examples.pendingBy 2)) eq_refl) as H1.
  split.
  - apply (proj1 H2). vm_compute. lia.
  - apply (proj2 H1). reflexivity.
Defined.

(** X5: cancel is open to the two parties only and records who
    cancelled.  A caller who is neither the donor nor the receiver gets
    403 and nothing changes; for a party, whatever the request's
    status, the request becomes [cancelled] and its cancellation holds
    the reason (or "Request cancelled" when none or an empty one is
    given), the time of the call, and [donor] when the caller is the
    request's donor, [receiver] otherwise. *)
Theorem cancel_spec s now user id msg r food :
  requests s !! id = Some r →
  foods s !! Request.foodItem r = Some food →
  (Request.donor r ≠ user → Request.receiver r ≠ user →
   updateStatus s now user id "cancelled" msg
   = (s, Next (AppError "Not authorized to cancel" 403)))
  ∧ (Request.donor r = user ∨ Request.receiver r = user →
     let out := updateStatus s now user id "cancelled" msg in
     ∃ r',
       out.2 = Json 200 r'
       ∧ requests out.1 !! id = Some r'
       ∧ Request.status r' = Request.cancelled
       ∧ Request.cancellation r'
         = Some (Request.mkCancellation
                   (orDefault msg "Request cancelled")
                   (if bool_decide (Request.donor r = user)
                    then Request.donor_party else Request.receiver_party)
                   now)).
Proof.
  intros Hid Hfood. split.
  - intros Hd Hr. unfold updateStatus. rewrite Hid.
    rewrite (bool_decide_eq_false_2 ("cancelled" = "accepted")) by done.
    rewrite (bool_decide_eq_false_2 ("cancelled" = "rejected")) by done.
    rewrite (bool_decide_eq_true_2 ("cancelled" = "cancelled")) by done.
    by rewrite (bool_decide_eq_false_2 _ Hd), (bool_decide_eq_false_2 _ Hr).
  - intros Hparty out. subst out.
    rewrite (updateStatus_cancel _ _ _ _ _ _ Hid Hparty).
    rewrite (updateFood_revert _ _ _ food) by (by right || done).
    eexists. split; [reflexivity|]. cbn [fst].
    split; [|done].
    assert (Hlt : id < length (requests s)) by (by eapply lookup_lt_Some).
    case_bool_decide; cbn [requests saveRequest];
      by apply list_lookup_insert_eq.
Qed.

Lemma cancel_spec_witness :
  let s := exec Examples.store0 [OpCreate 2 Examples.body0] in
  updateStatus s 10 3 0 "cancelled" None
  = (s, Next (AppError "Not authorized to cancel" 403))
  ∧ (let out := updateStatus s 10 2 0 "cancelled" (Some "") in
     ∃ r',
       out.2 = Json 200 r'
       ∧ requests out.1 !! 0 = Some r'
       ∧ Request.status r' = Request.cancelled
       ∧ Request.cancellation r'
         = Some (Request.mkCancellation "Request cancelled"
                   Request.receiver_party 10)).
Proof.
  intros s.
  pose proof (cancel_spec s 10 3 0 None (Examples.pendingBy 2)
                (Food.set_status Food.requested Examples.food0)
                eq_refl eq_refl) as H3.
  pose proof (cancel_spec s 10 2 0 (Some "") (Examples.pendingBy 2)
                (Food.set_status Food.requested Examples.food0)
                eq_refl eq_refl) as H2.
  split.
  - apply (proj1 H3); vm_compute; lia.
  - apply (proj2 H2). right. reflexivity.
Defined.

(** X6: what the donor's answer records.  A reject by the donor stores
    the given message, or "Request rejected" when none or an empty one
    is given, with the time of the call and no pickup time; an accept
    stores the message or "Request accepted" and proposes the
    receiver's preferred pickup time.  A reject by anyone else, the
    receiver included, is refused with 403. *)
Theorem donor_response_spec s now user id msg r food :
  requests s !! id = Some r →
  foods s !! Request.foodItem r = Some food →
  (Request.donor r ≠ user →
   updateStatus s now user id "rejected" msg
   = (s, Next (AppError "Only donor can reject" 403)))
  ∧ (Request.donor r = user →
     (∃ r', (updateStatus s now user id "rejected" msg).2 = Json 200 r'
            ∧ Request.status r' = Request.rejected
            ∧ Request.donorResponse r'
              = Some (Request.mkDonorResponse
                        (orDefault msg "Request rejected") now None))
     ∧ (∃ r', (updateStatus s now user id "accepted" msg).2 = Json 200 r'
              ∧ Request.donorResponse r'
                = Some (Request.mkDonorResponse
                          (orDefault msg "Request accepted") now
                          (Request.preferredTime (Request.pickupDetails r)))))
  ∧ (∀ dflt, orDefault None dflt = dflt ∧ orDefault (Some "") dflt = dflt)
  ∧ (∀ m dflt, m ≠ "" → orDefault (Some m) dflt = m).
Proof.
  intros Hid Hfood. split; [|split; [|split]].
  - intros Hne. unfold updateStatus. rewrite Hid.
    rewrite (bool_decide_eq_false_2 ("rejected" = "accepted")) by done.
    rewrite (bool_decide_eq_true_2 ("rejected" = "rejected")) by done.
    by rewrite (bool_decide_eq_false_2 _ Hne).
  - intros <-. split.
    + rewrite (updateStatus_reject _ _ _ _ _ Hid).
      rewrite (updateFood_revert _ _ _ food) by (by left || done).
      eexists. split; [reflexivity|]. done.
    + exists (Request.accept now msg None r). split; [|done].
      rewrite (updateStatus_accept _ _ _ _ _ Hid).
      unfold updateFood.
      rewrite (bool_decide_eq_true_2 ("accepted" = "accepted")) by done.
      cbn [saveRequest foods Request.accept Request.set_donorResponse
           Request.set_status Request.foodItem]. by rewrite Hfood.
  - done.
  - intros m dflt Hm. unfold orDefault. by rewrite bool_decide_eq_false_2.
Qed.

Lemma donor_response_spec_witness :
  let s := exec Examples.store0 [OpCreate 2 Examples.body0] in
  updateStatus s 10 2 0 "rejected" None
  = (s, Next (AppError "Only donor can reject" 403))
  ∧ (∃ r', (updateStatus s 10 1 0 "rejected" (Some "")).2 = Json 200 r'
           ∧ Request.status r' = Request.rejected
           ∧ Request.donorResponse r'
             = Some (Request.mkDonorResponse "Request rejected" 10 None))
  ∧ (∃ r', (updateStatus s 10 1 0 "accepted" (Some "come by")).2 = Json 200 r'
           ∧ Request.donorResponse r'
             = Some (Request.mkDonorResponse "come by" 10 (Some 150)))
  ∧ orDefault (Some "come by") "Request accepted" = "come by".
Proof.
  intros s.
  pose proof (donor_response_spec s 10 2 0 None (Examples.pendingBy 2)
                (Food.set_status Food.requested Examples.food0)
                eq_refl eq_refl) as H2.
  pose proof (donor_response_spec s 10 1 0 (Some "") (Examples.pendingBy 2)
                (Food.set_status Food.requested Examples.food0)
                eq_refl eq_refl) as H1.
  pose proof (donor_response_spec s 10 1 0 (Some "come by")
                (Examples.pendingBy 2)
                (Food.set_status Food.requested Examples.food0)
                eq_refl eq_refl) as H1'.
  split; [apply (proj1 H2); vm_compute; lia|].
  split; [apply (proj1 (proj1 (proj2 H1) eq_refl))|].
  split; [apply (proj2 (proj1 (proj2 H1') eq_refl))|].
  apply (proj2 (proj2 (proj2 H1))). vm_compute. discriminate.
Defined.

(** X7: a listing stays taken until a reject or a cancel.  Once
    [createRequest] has answered 201 for a listing, then after any
    further sequence of creates and updates in which no update has
    status [rejected] or [cancelled], every [createRequest] for that
    listing, by any user and with any fields, is refused with 400 and
    changes nothing. *)
Theorem listing_taken_after_create s user body s' r ops :
  createRequest s user body = (s', Json 201 r) →
  Forall (λ o, reopens o = false) ops →
  ∀ user' body',
    b_foodItem body' = b_foodItem body →
    createRequest (exec s' ops) user' body'
    = (exec s' ops, Next (AppError "Food item not available" 400)).
Proof.
  intros Hcreate Hops user' body' Hsame.
  set (fid := b_foodItem body).
  set (taken := λ t : Store,
         ∃ food, foods t !! fid = Some food
                 ∧ Food.status food ≠ Food.available).
  assert (H0 : taken s').
  { revert Hcreate. unfold createRequest. fold fid.
    destruct (foods s !! fid) as [food|]; [|done].
    destruct (_ || _); [done|]. destruct (negb _); [done|].
    intros [= <- _]. unfold taken. cbn [foods].
    rewrite lookup_insert_eq. by eexists. }
  assert (Hstep : ∀ t o, reopens o = false → taken t → taken (step t o)).
  { intros t [u b | now u id status msg] Ho Ht; cbn [step].
    - unfold createRequest.
      destruct (foods t !! b_foodItem b) as [food0|]; [|done].
      destruct (_ || _); [done|]. destruct (negb _); [done|].
      unfold taken. cbn [fst foods].
      destruct (decide (b_foodItem b = fid)) as [->|Hne].
      + rewrite lookup_insert_eq. by eexists.
      + by rewrite lookup_insert_ne.
    - cbn [reopens] in Ho. apply orb_false_iff in Ho as [Hrej Hcan].
      apply bool_decide_eq_false in Hrej, Hcan.
      destruct (updateStatus_cases t now u id status msg)
        as [[-> _] | (r0 & r' & _ & _ & ->)]; [done|].
      unfold updateFood.
      rewrite (bool_decide_eq_false_2 _ Hrej), (bool_decide_eq_false_2 _ Hcan).
      cbn [orb]. case_bool_decide; [|done].
      cbn [saveRequest foods].
      destruct (foods t !! Request.foodItem r') as [food0|]; [|done].
      unfold taken. cbn [fst foods].
      destruct (decide (Request.foodItem r' = fid)) as [->|Hne].
      + rewrite lookup_insert_eq. by eexists.
      + by rewrite lookup_insert_ne. }
  assert (Htaken : taken (exec s' ops)).
  { clear Hcreate. unfold exec. revert s' H0.
    induction Hops as [|o ops Ho _ IH]; intros s' H0; [done|].
    cbn [foldl]. apply IH. by apply Hstep. }
  destruct Htaken as (food & Hfood & Hst).
  unfold createRequest. rewrite Hsame. fold fid. rewrite Hfood.
  rewrite (bool_decide_eq_false_2 _ Hst). by rewrite orb_true_r.
Qed.

Lemma listing_taken_after_create_witness :
  let s' := exec Examples.store0 [OpCreate 2 Examples.body0] in
  let later :=
    exec s' [ OpCreate 3 Examples.body0;
              OpUpdate 10 1 0 "accepted" None;
              OpUpdate 20 1 0 "completed" None ] in
  createRequest s' 3 Examples.body0
  = (s', Next (AppError "Food item not available" 400))
  ∧ createRequest later 3 Examples.body0
    = (later, Next (AppError "Food item not available" 400)).
Proof.
  intros s' later. split.
  - apply (listing_taken_after_create Examples.store0 2 Examples.body0 s'
             (Examples.pendingBy 2) [] eq_refl (Forall_nil_2 _) 3
             Examples.body0 eq_refl).
  - apply (listing_taken_after_create Examples.store0 2 Examples.body0 s'
             (Examples.pendingBy 2) _ eq_refl); [|reflexivity].
    repeat constructor.
Defined.

Lemma createRequest_ok s user body food :
  foods s !! b_foodItem body = Some food →
  Food.isActive food = true →
  Food.status food = Food.available →
  Request.validate (Request.cast (createFields food user body)) = true →
  let r := Request.cast (createFields food user body) in
  createRequest s user body
  = (mkStore
       (<[b_foodItem body := Food.set_status Food.requested food]> (foods s))
       (requests s ++ [r]),
     Json 201 r)
  ∧ Request.foodItem r = b_foodItem body
  ∧ Request.donor r = Food.donor food.
Proof.
  intros Hfood Hact Hav Hvalid r. split; [|done]. unfold createRequest.
  by rewrite Hfood, Hact, (bool_decide_eq_true_2 _ Hav), Hvalid.
Qed.

(** X8: create, accept, complete.  From any store in which the listing
    is active and available, a request that passes the schema, the
    donor's accept and the donor's complete leave the request
    [completed] and the listing [claimed], not available, still
    active. *)
Theorem create_accept_complete s user body food t1 t2 m1 m2 :
  foods s !! b_foodItem body = Some food →
  Food.isActive food = true →
  Food.status food = Food.available →
  Request.validate (Request.cast (createFields food user body)) = true →
  let id := length (requests s) in
  let s1 := (createRequest s user body).1 in
  let s2 := (updateStatus s1 t1 (Food.donor food) id "accepted" m1).1 in
  let s3 := (updateStatus s2 t2 (Food.donor food) id "completed" m2).1 in
  Request.status <$> requests s3 !! id = Some Request.completed
  ∧ Food.status <$> foods s3 !! b_foodItem body = Some Food.claimed
  ∧ Food.isAvailable ∘ Food.availability <$> foods s3 !! b_foodItem body
    = Some false
  ∧ Food.isActive <$> foods s3 !! b_foodItem body = Some true.
Proof.
  intros Hfood Hact Hav Hvalid id s1 s2 s3.
  destruct (createRequest_ok s user body food Hfood Hact Hav Hvalid)
    as (Hcreate & Hfid & Hdonor).
  set (r := Request.cast (createFields food user body)) in *.
  assert (Hs1 : s1 = mkStore
                       (<[b_foodItem body := Food.set_status Food.requested food]>
                          (foods s))
                       (requests s ++ [r])) by (subst s1; by rewrite Hcreate).
  assert (Hr : requests s1 !! id = Some r).
  { rewrite Hs1. cbn [requests]. subst id.
    by rewrite lookup_app_r, Nat.sub_diag by lia. }
  assert (Hs2 : s2 = mkStore
                       (<[b_foodItem body :=
                            Food.set_isAvailable false
                              (Food.set_status Food.claimed
                                 (Food.set_status Food.requested food))]>
                          (foods s1))
                       (<[id := Request.accept t1 m1 None r]> (requests s1))).
  { subst s2. rewrite <- Hdonor, (updateStatus_accept _ _ _ _ _ Hr).
    unfold updateFood.
    rewrite (bool_decide_eq_true_2 ("accepted" = "accepted")) by done.
    cbn [saveRequest foods requests Request.accept Request.set_donorResponse
         Request.set_status Request.foodItem].
    rewrite Hfid. rewrite Hs1 at 1. cbn [foods].
    by rewrite lookup_insert_eq. }
  assert (Hlt : id < length (requests s1)) by (by eapply lookup_lt_Some).
  assert (Hr2 : requests s2 !! id = Some (Request.accept t1 m1 None r)).
  { rewrite Hs2. cbn [requests]. by apply list_lookup_insert_eq. }
  assert (Hd2 : Request.donor (Request.accept t1 m1 None r) = Food.donor food)
    by done.
  subst s3. rewrite <- Hd2, (updateStatus_complete _ _ _ _ _ Hr2).
  cbn [fst saveRequest requests foods].
  rewrite list_lookup_insert_eq
    by (rewrite Hs2; cbn [requests]; by rewrite length_insert).
  split; [done|].
  rewrite Hs2. cbn [foods]. rewrite lookup_insert_eq. simpl.
  by rewrite Hact.
Qed.

Lemma create_accept_complete_witness :
  let s3 :=
    exec Examples.store0
      [ OpCreate 2 Examples.body0;
        OpUpdate 10 1 0 "accepted" None;
        OpUpdate 20 1 0 "completed" None ] in
  Request.status <$> requests s3 !! 0 = Some Request.completed
  ∧ Food.status <$> foods s3 !! 0 = Some Food.claimed
  ∧ Food.isAvailable ∘ Food.availability <$> foods s3 !! 0 = Some false
  ∧ Food.isActive <$> foods s3 !! 0 = Some true.
Proof.
  intros s3.
  apply (create_accept_complete Examples.store0 2 Examples.body0
           Examples.food0 10 20 None None); reflexivity.
Defined.

Lemma isActiveFor_pending r :
  Request.status r = Request.pending →
  Request.isActiveFor (Request.foodItem r) r = true.
Proof.
  intros Hst. unfold Request.isActiveFor.
  by rewrite Hst, bool_decide_eq_true_2 by done.
Qed.

(** The donor's reject of the one active request of a listing: the
    listing is written back as [reopened]. *)
Lemma reject_last_active s now id msg r food :
  requests s !! id = Some r →
  Request.isActiveFor (Request.foodItem r) r = true →
  countActive s (Request.foodItem r) = 1 →
  foods s !! Request.foodItem r = Some food →
  updateStatus s now (Request.donor r) id "rejected" msg
  = (mkStore (<[Request.foodItem r := reopened food]> (foods s))
       (<[id := Request.reject now msg r]> (requests s)),
     Json 200 (Request.reject now msg r)).
Proof.
  intros Hid Hact Hone Hfood.
  pose proof (countActive_reject s now id msg r Hid Hact) as Hc.
  rewrite (updateStatus_reject _ _ _ _ _ Hid).
  rewrite (updateFood_revert _ _ _ food) by (by left || done).
  cbn [Request.reject Request.set_donorResponse Request.set_status
       Request.foodItem] in *.
  rewrite bool_decide_eq_true_2 by lia. done.
Qed.

(** X9: create, then reject.  From any store in which the listing is
    active, available and without active request, a request that
    passes the schema followed by the donor's reject leaves the request
    [rejected] and the listing available again ([isAvailable] set), so
    that the next valid request for it is answered 201. *)
Theorem create_reject_reopens s user body food t m :
  foods s !! b_foodItem body = Some food →
  Food.isActive food = true →
  Food.status food = Food.available →
  Request.validate (Request.cast (createFields food user body)) = true →
  countActive s (b_foodItem body) = 0 →
  let id := length (requests s) in
  let s1 := (createRequest s user body).1 in
  let s2 := (updateStatus s1 t (Food.donor food) id "rejected" m).1 in
  Request.status <$> requests s2 !! id = Some Request.rejected
  ∧ foods s2 !! b_foodItem body = Some (reopened food)
  ∧ ∀ user' body',
      b_foodItem body' = b_foodItem body →
      Request.validate (Request.cast (createFields food user' body')) = true →
      ∃ r', (createRequest s2 user' body').2 = Json 201 r'.
Proof.
  intros Hfood Hact Hav Hvalid Hzero id s1 s2.
  destruct (createRequest_ok s user body food Hfood Hact Hav Hvalid)
    as (Hcreate & Hfid & Hdonor).
  set (r := Request.cast (createFields food user body)) in *.
  assert (Hs1 : s1 = mkStore
                       (<[b_foodItem body := Food.set_status Food.requested food]>
                          (foods s))
                       (requests s ++ [r])) by (subst s1; by rewrite Hcreate).
  assert (Hr : requests s1 !! id = Some r).
  { rewrite Hs1. cbn [requests]. subst id.
    by rewrite lookup_app_r, Nat.sub_diag by lia. }
  assert (Hone : countActive s1 (Request.foodItem r) = 1).
  { rewrite Hs1, Hfid. unfold countActive, r. cbn [requests].
    rewrite countDocuments_app, countDocuments_cast.
    cbn [Request.f_foodItem createFields].
    fold (countActive s (b_foodItem body)). rewrite Hzero.
    by rewrite bool_decide_eq_true_2. }
  assert (Hfood1 : foods s1 !! Request.foodItem r
                   = Some (Food.set_status Food.requested food)).
  { rewrite Hs1, Hfid. cbn [foods]. apply lookup_insert_eq. }
  assert (Hs2 : s2 = mkStore
                       (<[b_foodItem body := reopened food]> (foods s1))
                       (<[id := Request.reject t m r]> (requests s1))).
  { subst s2. rewrite <- Hdonor.
    rewrite (reject_last_active s1 t id m r _ Hr (isActiveFor_pending r eq_refl)
               Hone Hfood1).
    by rewrite Hfid. }
  assert (Hlt : id < length (requests s1)) by (by eapply lookup_lt_Some).
  rewrite Hs2. cbn [requests foods].
  rewrite list_lookup_insert_eq by done. rewrite lookup_insert_eq.
  split; [done|]. split; [done|].
  intros user' body' Hsame Hvalid'.
  unfold createRequest. cbn [foods]. rewrite Hsame, lookup_insert_eq.
  cbn [reopened Food.set_isAvailable Food.set_status Food.isActive Food.status].
  rewrite Hact. rewrite (bool_decide_eq_true_2 (Food.available = Food.available))
    by done.
  cbn [negb orb].
  assert (Request.validate
            (Request.cast (createFields (reopened food) user' body')) = true)
    as -> by exact Hvalid'.
  eexists. reflexivity.
Qed.

Lemma create_reject_reopens_witness :
  let s2 := exec Examples.store0 Examples.createReject in
  Request.status <$> requests s2 !! 0 = Some Request.rejected
  ∧ foods s2 !! 0 = Some (reopened Examples.food0)
  ∧ ∀ user' body',
      b_foodItem body' = 0 →
      Request.validate (Request.cast (createFields Examples.food0 user' body'))
      = true →
      ∃ r', (createRequest s2 user' body').2 = Json 201 r'.
Proof.
  intros s2.
  apply (create_reject_reopens Examples.store0 2 Examples.body0
           Examples.food0 10 None); reflexivity.
Defined.



(** X11: a removed listing comes back as [available].  When a listing
    with exactly one active request is removed and the donor then
    rejects that request, the revert rule writes the listing's status
    back to [available] with [isAvailable] set, although the listing
    stays inactive; requests for it are still refused. *)
Theorem reject_reopens_removed_listing s user role id i r food s1 now msg :
  foods s !! id = Some food →
  requests s !! i = Some r →
  Request.foodItem r = id →
  Request.status r = Request.pending →
  countActive s id = 1 →
  FoodController.deleteFoodIn s user role id
  = (s1, FoodController.Done 200 "Listing removed") →
  let s2 := (updateStatus s1 now (Request.donor r) i "rejected" msg).1 in
  Food.status <$> foods s1 !! id = Some Food.cancelled
  ∧ Food.status <$> foods s2 !! id = Some Food.available
  ∧ Food.isAvailable ∘ Food.availability <$> foods s2 !! id = Some true
  ∧ Food.isActive <$> foods s2 !! id = Some false
  ∧ ∀ u body,
      b_foodItem body = id →
      createRequest s2 u body
      = (s2, Next (AppError "Food item not available" 400)).
Proof.
  intros Hfood Hr Hfid Hpend Hone Hdel s2.
  unfold FoodController.deleteFoodIn, FoodController.deleteFood in Hdel.
  rewrite Hfood in Hdel. destruct (_ && _); [done|].
  cbn [fst snd] in Hdel. injection Hdel as <-.
  subst id.
  assert (Hs2 : s2 = mkStore
                  (<[Request.foodItem r := reopened (FoodController.removed food)]>
                     (<[Request.foodItem r := FoodController.removed food]>
                        (foods s)))
                  (<[i := Request.reject now msg r]> (requests s))).
  { subst s2.
    by rewrite (reject_last_active
                  (mkStore
                     (<[Request.foodItem r := FoodController.removed food]>
                        (foods s)) (requests s))
                  now i msg r (FoodController.removed food)
                  Hr (isActiveFor_pending r Hpend) Hone
                  ltac:(cbn [foods]; apply lookup_insert_eq)). }
  split; [cbn [foods]; by rewrite lookup_insert_eq|].
  rewrite Hs2. cbn [foods]. rewrite !lookup_insert_eq.
  repeat split.
  intros u body Hb. unfold createRequest. cbn [foods].
  by rewrite Hb, lookup_insert_eq.
Qed.

Lemma reject_reopens_removed_listing_witness :
  let s := exec Examples.store0 [OpCreate 2 Examples.body0] in
  let s1 := (FoodController.deleteFoodIn s 1 "donor" 0).1 in
  let s2 := (updateStatus s1 20 1 0 "rejected" None).1 in
  Food.status <$> foods s1 !! 0 = Some Food.cancelled
  ∧ Food.status <$> foods s2 !! 0 = Some Food.available
  ∧ Food.isAvailable ∘ Food.availability <$> foods s2 !! 0 = Some true
  ∧ Food.isActive <$> foods s2 !! 0 = Some false
  ∧ ∀ u body,
      b_foodItem body = 0 →
      createRequest s2 u body
      = (s2, Next (AppError "Food item not available" 400)).
Proof.
  intros s s1 s2.
  apply (reject_reopens_removed_listing s 1 "donor" 0 0 (Examples.pendingBy 2)
           (Food.set_status Food.requested Examples.food0) s1 20 None);
    reflexivity.
Defined.

End RequestControllerMore.

(** * Further properties of the chat model and routes *)

Section ChatMore.

Import Chat.

Implicit Types (c : Chat.t) (m : Message).

Lemma matchesAll_new now (p1 p2 : ObjectId) f c :
  save (new now [p1; p2] (Some f)) = inr c →
  matchesAll (oid_hex p1) (oid_hex p2) f c = true
  ∧ messages c = [] ∧ unreadCount c = ∅ ∧ lastMessage c = None
  ∧ foodItem c = Some f
  ∧ (p1 ≠ p2 → participants c = [p1; p2]).
Proof.
  unfold save, new, validate, preSave. simpl.
  destruct (bool_decide (p2 ∈ [p1])) eqn:Hin; simpl; intros [= <-].
  - apply bool_decide_eq_true, list_elem_of_singleton in Hin as ->.
    unfold matchesAll. simpl.
    rewrite !bool_decide_eq_true_2; first [done | by left].
  - unfold matchesAll. simpl.
    rewrite !bool_decide_eq_true_2; first [done | by left | by right; left].
Qed.

Lemma save_new_succeeds now (p1 p2 : ObjectId) f :
  ∃ c, save (new now [p1; p2] (Some f)) = inr c.
Proof.
  unfold save, new, validate, preSave. simpl.
  destruct (bool_decide (p2 ∈ [p1])); simpl; eauto.
Qed.

Lemma matchesAll_hex (p1 p2 q1 q2 : ObjectId) f c :
  oid_hex q1 = oid_hex p1 → oid_hex q2 = oid_hex p2 →
  (matchesAll (oid_hex q1) (oid_hex q2) f c
   ↔ matchesAll (oid_hex p1) (oid_hex p2) f c)
  ∧ (matchesAll (oid_hex q2) (oid_hex q1) f c
     ↔ matchesAll (oid_hex p1) (oid_hex p2) f c).
Proof.
  intros -> ->. split; [done|]. unfold matchesAll.
  by rewrite (andb_comm (bool_decide (oid_hex p2 ∈ _))).
Qed.

(** X12: [findOrCreateChat] finds what it created.  The call always
    succeeds and returns a chat of the collection that is about the
    given listing and has both users among its participants; the
    collection is the old one or the old one with that chat appended;
    and any later call for the same two users, in either order and
    whatever ObjectId objects carry their ids, returns that same chat
    and leaves the collection alone. *)
Theorem findOrCreateChat_idempotent (chats : Collection) now p1 p2 f :
  let out := findOrCreateChat chats now p1 p2 f in
  ∃ id c,
    out.2 = inr (id, c)
    ∧ out.1 !! id = Some c
    ∧ (out.1 = chats ∨ out.1 = chats ++ [c])
    ∧ isParticipant (oid_hex p1) c = true
    ∧ isParticipant (oid_hex p2) c = true
    ∧ foodItem c = Some f
    ∧ ∀ now' q1 q2,
        oid_hex q1 = oid_hex p1 → oid_hex q2 = oid_hex p2 →
        findOrCreateChat out.1 now' q1 q2 f = (out.1, inr (id, c))
        ∧ findOrCreateChat out.1 now' q2 q1 f = (out.1, inr (id, c)).
Proof.
  intros out.
  assert (Hpart : ∀ c, matchesAll (oid_hex p1) (oid_hex p2) f c = true →
            isParticipant (oid_hex p1) c = true
            ∧ isParticipant (oid_hex p2) c = true ∧ foodItem c = Some f).
  { intros c. unfold matchesAll, isParticipant.
    rewrite !andb_true_iff, !bool_decide_eq_true.
    intros [[H1 H2] Hf]. split; [|split; [|done]].
    - apply existsb_exists. apply list_elem_of_fmap in H1 as (x & Hx & Hin).
      exists x. split; [by apply list_elem_of_In|].
      by apply bool_decide_eq_true.
    - apply existsb_exists. apply list_elem_of_fmap in H2 as (x & Hx & Hin).
      exists x. split; [by apply list_elem_of_In|].
      by apply bool_decide_eq_true. }
  assert (Hagain : ∀ (l : Collection) id c,
            list_find (λ c, Is_true (matchesAll (oid_hex p1) (oid_hex p2) f c)) l
            = Some (id, c) →
            ∀ now' q1 q2,
              oid_hex q1 = oid_hex p1 → oid_hex q2 = oid_hex p2 →
              findOrCreateChat l now' q1 q2 f = (l, inr (id, c))
              ∧ findOrCreateChat l now' q2 q1 f = (l, inr (id, c))).
  { intros l id c Hfind now' q1 q2 H1 H2.
    destruct (matchesAll_hex p1 p2 q1 q2 f c H1 H2) as [_ _].
    unfold findOrCreateChat. split.
    - rewrite (list_find_ext _ (λ c, Is_true
                 (matchesAll (oid_hex p1) (oid_hex p2) f c))), Hfind; [done|].
      intros x. by rewrite H1, H2.
    - rewrite (list_find_ext _ (λ c, Is_true
                 (matchesAll (oid_hex p1) (oid_hex p2) f c))), Hfind; [done|].
      intros x. rewrite H1, H2. unfold matchesAll.
      by rewrite (andb_comm (bool_decide (oid_hex p2 ∈ _))). }
  subst out.
  destruct (list_find
              (λ c, Is_true (matchesAll (oid_hex p1) (oid_hex p2) f c)) chats)
    as [[id c]|] eqn:Hfind.
  - assert (Heq : findOrCreateChat chats now p1 p2 f = (chats, inr (id, c)))
      by (unfold findOrCreateChat; by rewrite Hfind).
    rewrite Heq. cbn [fst snd].
    pose proof Hfind as (Hid & HP & _)%list_find_Some.
    apply Is_true_true in HP. destruct (Hpart _ HP) as (? & ? & ?).
    exists id, c. do 6 (split; [by eauto|]). by apply Hagain.
  - destruct (save_new_succeeds now p1 p2 f) as [c Hsave].
    assert (Heq : findOrCreateChat chats now p1 p2 f
                  = (chats ++ [c], inr (length chats, c)))
      by (unfold findOrCreateChat; by rewrite Hfind, Hsave).
    rewrite Heq. cbn [fst snd].
    destruct (matchesAll_new now p1 p2 f c Hsave) as (Hm & _).
    destruct (Hpart _ Hm) as (? & ? & ?).
    exists (length chats), c.
    split; [done|].
    split; [by rewrite lookup_app_r, Nat.sub_diag by lia|].
    split; [by right|]. do 3 (split; [done|]).
    apply Hagain. rewrite (list_find_app_r _ _ _ Hfind). simpl.
    by rewrite decide_True by (by apply Is_true_true).
Qed.

Lemma findOrCreateChat_idempotent_witness :
  let out := findOrCreateChat [] 5 Examples.oidA Examples.oidB 0 in
  out.1 = [Examples.chatAB]
  ∧ findOrCreateChat out.1 8 (mkObjectId 201 1) (mkObjectId 202 2) 0
    = (out.1, inr (0, Examples.chatAB))
  ∧ findOrCreateChat out.1 8 (mkObjectId 202 2) (mkObjectId 201 1) 0
    = (out.1, inr (0, Examples.chatAB)).
Proof.
  intros out. split; [reflexivity|].
  destruct (findOrCreateChat_idempotent [] 5 Examples.oidA Examples.oidB 0)
    as (id & c & Hout & _ & _ & _ & _ & _ & Hagain).
  injection Hout as <- <-.
  apply (Hagain 8 (mkObjectId 201 1) (mkObjectId 202 2)); reflexivity.
Defined.

Lemma isParticipant_elem_of u c :
  isParticipant u c = true ↔ u ∈ oid_hex <$> participants c.
Proof.
  unfold isParticipant. rewrite existsb_exists, list_elem_of_fmap. split.
  - intros (x & Hin%list_elem_of_In & Hx%bool_decide_eq_true). eauto.
  - intros (x & -> & Hin). exists x.
    split; [by apply list_elem_of_In | by apply bool_decide_eq_true].
Qed.

Lemma occurrences_notin u c :
  isParticipant u c = false → occurrences u c = 0.
Proof.
  unfold isParticipant, occurrences.
  induction (participants c) as [|p ps IH]; simpl; [done|].
  intros [Hp Hps]%orb_false_iff. rewrite Hp. by apply IH.
Qed.

Lemma occurrences_NoDup u c :
  NoDup (oid_hex <$> participants c) →
  isParticipant u c = true → occurrences u c = 1.
Proof.
  unfold occurrences. intros Hnd Hin%isParticipant_elem_of.
  induction (participants c) as [|p ps IH]; simpl in *.
  { by apply elem_of_nil in Hin. }
  apply NoDup_cons in Hnd as [Hp Hnd].
  case_bool_decide as Heq; simpl.
  - f_equal. subst u.
    assert (existsb (λ q, bool_decide (oid_hex q = oid_hex p)) ps = false)
      as Hnone.
    { apply not_true_is_false. intros (x & Hx & He%bool_decide_eq_true)%existsb_exists.
      apply Hp. apply list_elem_of_fmap. exists x.
      split; [done | by apply list_elem_of_In]. }
    clear -Hnone. induction ps as [|q qs IH]; simpl in *; [done|].
    apply orb_false_iff in Hnone as [-> Hqs]. by apply IH.
  - apply IH; [done|]. apply elem_of_cons in Hin as [?|?]; [by subst|done].
Qed.

Lemma foldl_bumpUnread s (ps : list ObjectId) (m : gmap nat nat) u :
  default 0 (foldl (bumpUnread s) m ps !! u)
  = default 0 (m !! u)
    + (if bool_decide (u = s) then 0
       else length (List.filter (λ p, bool_decide (oid_hex p = u)) ps)).
Proof.
  revert m. induction ps as [|p ps IH]; intros m; simpl.
  { case_bool_decide; lia. }
  rewrite IH. unfold bumpUnread.
  destruct (decide (oid_hex p = s)) as [Hs | Hs].
  - rewrite (bool_decide_eq_false_2 (oid_hex p ≠ s)) by (intros H; by apply H).
    destruct (decide (u = s)) as [-> | Hu].
    + by rewrite !bool_decide_eq_true_2.
    + rewrite (bool_decide_eq_false_2 (u = s)) by done.
      by rewrite (bool_decide_eq_false_2 (oid_hex p = u)) by congruence.
  - rewrite (bool_decide_eq_true_2 (oid_hex p ≠ s)) by done.
    destruct (decide (oid_hex p = u)) as [<- | Hu].
    + rewrite lookup_insert_eq. rewrite (bool_decide_eq_false_2 (_ = s)) by done.
      rewrite bool_decide_eq_true_2 by done. simpl. lia.
    + rewrite lookup_insert_ne by done.
      by rewrite (bool_decide_eq_false_2 (oid_hex p = u)) by done.
Qed.

(** X13: who gets an unread message.  A message appended by
    [addMessage] raises the counter of every user but the sender by the
    number of times that user is listed as participant: by one for a
    participant of a list without duplicate users, by nothing for a
    user who is not a participant, and never for the sender. *)
Theorem addMessage_counts now s text ty md c :
  wellFormed c → sendable text → default "text" ty ∈ messageTypes →
  ∃ c',
    addMessage now s text ty md c = inr c'
    ∧ (∀ u, getUnreadCount u c'
            = getUnreadCount u c
              + (if bool_decide (u = s) then 0 else occurrences u c))
    ∧ getUnreadCount s c' = getUnreadCount s c
    ∧ (∀ u, isParticipant u c = false →
            getUnreadCount u c' = getUnreadCount u c)
    ∧ (NoDup (oid_hex <$> participants c) →
       ∀ u, isParticipant u c = true → u ≠ s →
            getUnreadCount u c' = S (getUnreadCount u c)).
Proof.
  intros Hwf Hs Hty.
  destruct (addMessage_ok now s text ty md c Hwf Hs Hty) as [Hadd _].
  eexists. split; [exact Hadd|].
  assert (Hall : ∀ u, getUnreadCount u
                        (mk (participants c) (foodItem c)
                           (messages c ++
                              [castMessage now
                                 (mkMessageFields s text
                                    (Some (default "text" ty))
                                    (md_mediaUrl md) (md_mediaCaption md) None)])
                           (Some (castMessage now
                                    (mkMessageFields s text
                                       (Some (default "text" ty))
                                       (md_mediaUrl md) (md_mediaCaption md)
                                       None)))
                           (foldl (bumpUnread s) (unreadCount c) (participants c))
                           (isActive c) now)
                = getUnreadCount u c
                  + (if bool_decide (u = s) then 0 else occurrences u c)).
  { intros u. unfold getUnreadCount. cbn [unreadCount].
    apply foldl_bumpUnread. }
  split; [exact Hall|]. split; [|split].
  - rewrite Hall, bool_decide_eq_true_2 by done. lia.
  - intros u Hu. rewrite Hall, (occurrences_notin _ _ Hu).
    case_bool_decide; lia.
  - intros Hnd u Hu Hne. rewrite Hall, (occurrences_NoDup _ _ Hnd Hu).
    rewrite bool_decide_eq_false_2 by done. lia.
Qed.

Lemma addMessage_counts_witness :
  ∃ c',
    addMessage 10 1 "hello" None Examples.noMedia Examples.chatTwin = inr c'
    ∧ getUnreadCount 1 c' = getUnreadCount 1 Examples.chatTwin
    ∧ getUnreadCount 9 c' = getUnreadCount 9 Examples.chatTwin
    ∧ ∃ c'',
        addMessage 10 1 "hello" None Examples.noMedia Examples.chatAB = inr c''
        ∧ getUnreadCount 2 c'' = S (getUnreadCount 2 Examples.chatAB).
Proof.
  assert (Htwin : wellFormed Examples.chatTwin).
  { split; [reflexivity|]. split; [simpl; lia|].
    refine (bool_decide_unpack _ _). vm_compute. exact I. }
  destruct (addMessage_counts 10 1 "hello" None Examples.noMedia
              Examples.chatTwin Htwin sendable_hello
              ltac:(refine (bool_decide_unpack _ _); vm_compute; exact I))
    as (c' & Hadd & _ & Hs & Hout & _).
  exists c'. split; [exact Hadd|]. split; [exact Hs|].
  split; [apply Hout; reflexivity|].
  destruct (addMessage_counts 10 1 "hello" None Examples.noMedia
              Examples.chatAB wellFormed_chatAB sendable_hello
              ltac:(refine (bool_decide_unpack _ _); vm_compute; exact I))
    as (c'' & Hadd' & _ & _ & _ & Hone).
  exists c''. split; [exact Hadd'|].
  apply Hone; [|reflexivity|vm_compute; lia].
  refine (bool_decide_unpack _ _). vm_compute. exact I.
Defined.



(** X15: the chat routes are for participants.  For an unknown chat id
    the three routes answer 404, for a user who is not a participant
    403, and in both cases the collection is unchanged; a participant
    reads the whole log; and whenever a post or a read is answered with
    an error the collection is unchanged. *)
Theorem chat_routes_guard (chats : Collection) now user id body :
  (chats !! id = None →
   ChatRoutes.getMessages chats user id
   = ChatRoutes.Refused (AppError "Chat not found" 404)
   ∧ ChatRoutes.postMessage chats now user id body
     = (chats, ChatRoutes.Next (AppError "Chat not found" 404))
   ∧ ChatRoutes.putRead chats now user id
     = (chats, ChatRoutes.Next (AppError "Chat not found" 404)))
  ∧ (∀ c, chats !! id = Some c → isParticipant user c = false →
       ChatRoutes.getMessages chats user id
       = ChatRoutes.Refused (AppError "Not authorized" 403)
       ∧ ChatRoutes.postMessage chats now user id body
         = (chats, ChatRoutes.Next (AppError "Not authorized" 403))
       ∧ ChatRoutes.putRead chats now user id
         = (chats, ChatRoutes.Next (AppError "Not authorized" 403)))
  ∧ (∀ c, chats !! id = Some c → isParticipant user c = true →
       ChatRoutes.getMessages chats user id = ChatRoutes.Messages (messages c))
  ∧ (∀ e, (ChatRoutes.postMessage chats now user id body).2
          = ChatRoutes.Next e →
          (ChatRoutes.postMessage chats now user id body).1 = chats)
  ∧ (∀ e, (ChatRoutes.putRead chats now user id).2 = ChatRoutes.Next e →
          (ChatRoutes.putRead chats now user id).1 = chats).
Proof.
  unfold ChatRoutes.getMessages, ChatRoutes.postMessage, ChatRoutes.putRead.
  split; [|split; [|split; [|split]]].
  - by intros ->.
  - by intros c -> ->.
  - by intros c -> ->.
  - intros e. destruct (chats !! id) as [c|]; [|done].
    destruct (negb _); [done|]. by destruct (addMessage _ _ _ _ _ _).
  - intros e. destruct (chats !! id) as [c|]; [|done].
    destruct (negb _); [done|]. by destruct (markAsRead _ _ _).
Qed.

Lemma chat_routes_guard_witness :
  let body := ChatRoutes.mkMessageBody "hello" None None None in
  (ChatRoutes.getMessages [Examples.chatAB] 9 7
   = ChatRoutes.Refused (AppError "Chat not found" 404)
   ∧ ChatRoutes.postMessage [Examples.chatAB] 10 9 7 body
     = ([Examples.chatAB], ChatRoutes.Next (AppError "Chat not found" 404))
   ∧ ChatRoutes.putRead [Examples.chatAB] 10 9 7
     = ([Examples.chatAB], ChatRoutes.Next (AppError "Chat not found" 404)))
  ∧ (ChatRoutes.getMessages [Examples.chatAB] 9 0
     = ChatRoutes.Refused (AppError "Not authorized" 403)
     ∧ ChatRoutes.postMessage [Examples.chatAB] 10 9 0 body
       = ([Examples.chatAB], ChatRoutes.Next (AppError "Not authorized" 403))
     ∧ ChatRoutes.putRead [Examples.chatAB] 10 9 0
       = ([Examples.chatAB], ChatRoutes.Next (AppError "Not authorized" 403)))
  ∧ ChatRoutes.getMessages [Examples.chatAB] 1 0
    = ChatRoutes.Messages (messages Examples.chatAB)
  ∧ (ChatRoutes.postMessage [Examples.chatAB] 10 1 0
       (ChatRoutes.mkMessageBody "" None None None)).1
    = [Examples.chatAB].
Proof.
  intros body.
  pose proof (chat_routes_guard [Examples.chatAB] 10 9 7 body) as H7.
  pose proof (chat_routes_guard [Examples.chatAB] 10 9 0 body) as H9.
  pose proof (chat_routes_guard [Examples.chatAB] 10 1 0 body) as H1.
  pose proof (chat_routes_guard [Examples.chatAB] 10 1 0
                (ChatRoutes.mkMessageBody "" None None None)) as H0.
  split; [apply (proj1 H7); reflexivity|].
  split; [apply (proj1 (proj2 H9) Examples.chatAB); reflexivity|].
  split; [apply (proj1 (proj2 (proj2 H1)) Examples.chatAB); reflexivity|].
  apply (proj1 (proj2 (proj2 (proj2 H0)))
           (ValidationError "Chat validation failed")).
  reflexivity.
Defined.

Lemma unseenBy_pushed v c m last u d :
  unseenBy v (mk (participants c) (foodItem c) (messages c ++ [m]) last u
                (isActive c) d)
  = unseenBy v c + Nat.b2n (unseen v m).
Proof.
  unfold unseenBy. cbn [messages].
  rewrite List.filter_app, length_app. simpl.
  by destruct (unseen v m).
Qed.

Lemma unseen_markRead_self now u (ms : list Message) :
  length (List.filter (unseen u) (markRead now u <$> ms)) = 0.
Proof.
  induction ms as [|m ms IH]; [done|]. rewrite fmap_cons. simpl.
  assert (unseen u (markRead now u m) = false) as ->; [|done].
  unfold unseen, markRead. destruct (isRead m) eqn:Hr; simpl.
  - by rewrite Hr.
  - case_bool_decide as Hne; simpl; [done|]. rewrite Hr. simpl.
    apply bool_decide_eq_false_2. intros H. by apply H.
Qed.

Lemma unseen_markRead_other now u v (ms : list Message) :
  Forall (λ m, sender m = u ∨ sender m = v) ms →
  u ≠ v →
  length (List.filter (unseen v) (markRead now u <$> ms))
  = length (List.filter (unseen v) ms).
Proof.
  intros Hall Hne. induction Hall as [|m ms Hm _ IH]; [done|].
  rewrite fmap_cons. simpl.
  assert (unseen v (markRead now u m) = unseen v m) as ->.
  { unfold unseen. rewrite sender_markRead. destruct Hm as [Hm | Hm].
    - unfold markRead.
      rewrite (bool_decide_eq_false_2 (sender m ≠ u))
        by (intros H; by apply H).
      by rewrite andb_false_r.
    - rewrite (bool_decide_eq_false_2 (sender m ≠ v))
        by (intros H; by apply H).
      by rewrite !andb_false_r. }
  destruct (unseen v m); simpl; by rewrite IH.
Qed.

(** [addMessage] on a well-formed chat either fails validation or
    stores the chat with the message pushed. *)
Lemma addMessage_wellFormed now s text ty md c :
  wellFormed c →
  let m :=
    castMessage now
      (mkMessageFields s text (Some (default "text" ty))
         (md_mediaUrl md) (md_mediaCaption md) None) in
  let c' :=
    mk (participants c) (foodItem c) (messages c ++ [m]) (Some m)
       (foldl (bumpUnread s) (unreadCount c) (participants c))
       (isActive c) now in
  (∃ e, addMessage now s text ty md c = inl e)
  ∨ (addMessage now s text ty md c = inr c' ∧ wellFormed c').
Proof.
  intros (Hv & Hlen & Hnd) m c'.
  change (addMessage now s text ty md c) with (save c').
  unfold save. destruct (validate c') eqn:Hv'; [|left; eauto].
  right. assert (Hwf' : wellFormed c') by done.
  split; [|done]. by apply preSave_hydrated.
Qed.

Lemma getUnreadCount_bumped v s c ps f ms last ia d :
  getUnreadCount v
    (mk ps f ms last (foldl (bumpUnread s) (unreadCount c) (participants c))
       ia d)
  = getUnreadCount v c
    + (if bool_decide (v = s) then 0 else occurrences v c).
Proof. unfold getUnreadCount. cbn [unreadCount]. apply foldl_bumpUnread. Qed.

Lemma inSync_participants a b c :
  ChatRoutes.inSync a b c →
  (∀ u, isParticipant u c = true → u = a ∨ u = b)
  ∧ occurrences a c = 1 ∧ occurrences b c = 1.
Proof.
  intros (_ & Hps & Hne & _). split.
  - intros u Hu%isParticipant_elem_of. rewrite Hps in Hu.
    apply elem_of_cons in Hu as [?|Hu]; [by left|].
    apply list_elem_of_singleton in Hu. by right.
  - unfold occurrences.
    destruct (participants c) as [|pa [|pb [|? ?]]]; simplify_eq/=.
    rewrite (bool_decide_eq_true_2 (oid_hex pa = oid_hex pa)) by done.
    rewrite (bool_decide_eq_true_2 (oid_hex pb = oid_hex pb)) by done.
    rewrite (bool_decide_eq_false_2 (oid_hex pb = oid_hex pa)) by congruence.
    by rewrite (bool_decide_eq_false_2 (oid_hex pa = oid_hex pb)) by done.
Qed.

Lemma inSync_step a b (chats : Collection) id c o :
  chats !! id = Some c → ChatRoutes.inSync a b c →
  ∃ c', ChatRoutes.step id chats o !! id = Some c' ∧ ChatRoutes.inSync a b c'.
Proof.
  intros Hid Hsync.
  assert (Hlt : id < length chats) by (by eapply lookup_lt_Some).
  pose proof Hsync as (Hwf & Hps & Hne & Hsenders & Ha & Hb).
  destruct (inSync_participants a b c Hsync) as (Hpart & Hoa & Hob).
  destruct o as [now user body | now user]; simpl.
  - unfold ChatRoutes.postMessage. rewrite Hid.
    destruct (isParticipant user c) eqn:Hu; simpl; [|eauto].
    destruct (addMessage_wellFormed now user (ChatRoutes.b_content body)
                (ChatRoutes.b_messageType body)
                (mkMediaData (ChatRoutes.b_mediaUrl body)
                   (ChatRoutes.b_mediaCaption body)) c Hwf)
      as [[e ->] | [-> Hwf']]; simpl; [eauto|].
    eexists. split; [by apply list_lookup_insert_eq|].
    split; [done|]. split; [done|]. split; [done|].
    split.
    { cbn [messages]. apply Forall_app. split; [done|].
      apply Forall_singleton. simpl. by apply Hpart. }
    rewrite !unseenBy_pushed, !getUnreadCount_bumped.
    rewrite Hoa, Hob, Ha, Hb. unfold unseen. simpl.
    split.
    + destruct (decide (a = user)) as [-> | Hau].
      * rewrite bool_decide_eq_true_2 by done.
        by rewrite bool_decide_eq_false_2 by (intros H; by apply H).
      * rewrite bool_decide_eq_false_2 by done.
        by rewrite bool_decide_eq_true_2 by done.
    + destruct (decide (b = user)) as [-> | Hbu].
      * rewrite bool_decide_eq_true_2 by done.
        by rewrite bool_decide_eq_false_2 by (intros H; by apply H).
      * rewrite bool_decide_eq_false_2 by done.
        by rewrite bool_decide_eq_true_2 by done.
  - unfold ChatRoutes.putRead. rewrite Hid.
    destruct (isParticipant user c) eqn:Hu; simpl; [|eauto].
    destruct (markAsRead_ok now user c Hwf) as [-> Hwf']. simpl.
    eexists. split; [by apply list_lookup_insert_eq|].
    split; [done|]. split; [done|]. split; [done|].
    split.
    { cbn [messages]. apply Forall_fmap. eapply Forall_impl; [done|].
      intros m Hm. simpl. by rewrite sender_markRead. }
    unfold getUnreadCount, unseenBy. cbn [unreadCount messages].
    destruct (Hpart _ Hu) as [-> | ->].
    + rewrite lookup_insert_eq, lookup_insert_ne by done.
      rewrite unseen_markRead_self. split; [done|].
      rewrite unseen_markRead_other by done. exact Hb.
    + rewrite lookup_insert_eq, lookup_insert_ne by done.
      rewrite unseen_markRead_self. split; [|done].
      rewrite unseen_markRead_other; [exact Ha | | done].
      eapply Forall_impl; [done|]. intros m [?|?]; eauto.
Qed.

(** X16: between two users the counters tell the truth.  In a chat of
    two different users whose counters agree with its log, any
    sequence of posts and reads through the chat routes, by whomever
    and with whatever content, leaves the chat with every message sent
    by one of the two and each one's counter equal to the number of
    unread messages the other sent. *)
Theorem counters_stay_in_sync a b (chats : Collection) id c ops :
  chats !! id = Some c → ChatRoutes.inSync a b c →
  ∃ c', foldl (ChatRoutes.step id) chats ops !! id = Some c'
        ∧ ChatRoutes.inSync a b c'.
Proof.
  revert chats c. induction ops as [|o ops IH]; intros chats c Hid Hsync.
  - eauto.
  - destruct (inSync_step a b chats id c o Hid Hsync) as (c1 & Hid1 & Hsync1).
    simpl. by apply (IH _ c1).
Qed.

Lemma inSync_chatAB : ChatRoutes.inSync 1 2 Examples.chatAB.
Proof.
  split; [exact wellFormed_chatAB|]. split; [reflexivity|].
  split; [lia|]. split; [constructor|]. split; reflexivity.
Defined.

Lemma counters_stay_in_sync_witness :
  ∃ c',
    foldl (ChatRoutes.step 0) [Examples.chatAB]
      [ ChatRoutes.OpPost 10 1 (ChatRoutes.mkMessageBody "hello" None None None);
        ChatRoutes.OpPost 20 2 (ChatRoutes.mkMessageBody "hi" None None None);
        ChatRoutes.OpRead 30 2 ] !! 0 = Some c'
    ∧ ChatRoutes.inSync 1 2 c'.
Proof.
  apply (counters_stay_in_sync 1 2 [Examples.chatAB] 0 Examples.chatAB _
           eq_refl inSync_chatAB).
Defined.

(** X22: a new chat starts in order.  When no chat of the collection
    matches, [findOrCreateChat] for two ObjectIds of different users
    appends a chat with exactly these two participants, an empty log,
    no [lastMessage], every counter at zero, active, its activity time
    the time of the call; it is well-formed and its counters agree
    with its log. *)
Theorem created_chat_in_sync (chats : Collection) now p1 p2 f :
  oid_hex p1 ≠ oid_hex p2 →
  Forall (λ c, matchesAll (oid_hex p1) (oid_hex p2) f c = false) chats →
  ∃ c,
    findOrCreateChat chats now p1 p2 f
    = (chats ++ [c], inr (length chats, c))
    ∧ participants c = [p1; p2]
    ∧ messages c = []
    ∧ lastMessage c = None
    ∧ (∀ u, getUnreadCount u c = 0)
    ∧ isActive c = true
    ∧ lastActivity c = now
    ∧ ChatRoutes.inSync (oid_hex p1) (oid_hex p2) c.
Proof.
  intros Hne Hnone.
  assert (Hfind : list_find
                    (λ c, Is_true (matchesAll (oid_hex p1) (oid_hex p2) f c))
                    chats = None).
  { apply list_find_None. eapply Forall_impl; [exact Hnone|].
    intros c Hc. simpl. rewrite Hc. auto. }
  assert (Hobj : p1 ≠ p2) by congruence.
  assert (Hsave : save (new now [p1; p2] (Some f))
                  = inr (new now [p1; p2] (Some f))).
  { apply save_wellFormed. split; [done|]. split; [simpl; lia|].
    unfold hydrated. simpl. apply NoDup_cons. split; [|apply NoDup_singleton].
    by intros ?%list_elem_of_singleton. }
  exists (new now [p1; p2] (Some f)).
  split; [unfold findOrCreateChat; by rewrite Hfind, Hsave|].
  do 6 (split; [done|]).
  split.
  { split; [done|]. split; [simpl; lia|].
    unfold hydrated. simpl. apply NoDup_cons. split; [|apply NoDup_singleton].
    by intros ?%list_elem_of_singleton. }
  split; [done|]. split; [done|]. split; [constructor|]. done.
Qed.

Lemma created_chat_in_sync_witness :
  ∃ c,
    findOrCreateChat [] 5 Examples.oidA Examples.oidB 0 = ([] ++ [c], inr (0, c))
    ∧ participants c = [Examples.oidA; Examples.oidB]
    ∧ messages c = []
    ∧ lastMessage c = None
    ∧ (∀ u, getUnreadCount u c = 0)
    ∧ isActive c = true
    ∧ lastActivity c = 5
    ∧ ChatRoutes.inSync 1 2 c.
Proof.
  apply (created_chat_in_sync [] 5 Examples.oidA Examples.oidB 0).
  - vm_compute. lia.
  - constructor.
Defined.

End ChatMore.

(** * Further properties of the realtime gateway *)

Section GatewayMore.

Import Socket.

Implicit Types (rooms : Room → gset nat) (sock spy : Socket.t).

(** Set goals over rooms, settled element by element. *)
Ltac by_elements :=
  try (apply set_eq; intros ?);
  repeat (rewrite elem_of_union || rewrite elem_of_difference
          || rewrite elem_of_singleton);
  intuition congruence.

(** X17: rooms are sets, and joining asks no question.  Joining twice
    is joining once and leaving twice is leaving once; leaving a room
    the socket is not in changes nothing; after a join the socket is in
    the room, after a leave it is not; and neither touches another room
    or another socket's membership. *)
Theorem room_membership rooms sock name :
  (∀ r, joinChat (joinChat rooms sock name) sock name r
        = joinChat rooms sock name r)
  ∧ (∀ r, leaveChat (leaveChat rooms sock name) sock name r
          = leaveChat rooms sock name r)
  ∧ (socketId sock ∉ rooms name →
     ∀ r, leaveChat rooms sock name r = rooms r)
  ∧ (socketId sock ∈ joinChat rooms sock name name)
  ∧ (socketId sock ∉ leaveChat rooms sock name name)
  ∧ (∀ r, r ≠ name →
          joinChat rooms sock name r = rooms r
          ∧ leaveChat rooms sock name r = rooms r)
  ∧ (∀ sid, sid ≠ socketId sock →
            (sid ∈ joinChat rooms sock name name ↔ sid ∈ rooms name)
            ∧ (sid ∈ leaveChat rooms sock name name ↔ sid ∈ rooms name)).
Proof.
  unfold joinChat, leaveChat, join, leave.
  split; [|split; [|split; [|split; [|split; [|split]]]]].
  - intros r. case_decide; [|done]. by_elements.
  - intros r. case_decide; [|done]. by_elements.
  - intros Hnot r. case_decide as Hr; [|done]. subst r. by_elements.
  - rewrite decide_True by done. by_elements.
  - rewrite decide_True by done. by_elements.
  - intros r Hr. by rewrite !decide_False by done.
  - intros sid Hsid. rewrite !decide_True by done. by_elements.
Qed.

Lemma room_membership_witness :
  (∀ r, leaveChat Examples.rooms0 Examples.sockOutsider (ChatRoom 0) r
        = Examples.rooms0 r)
  ∧ (∀ r, r ≠ ChatRoom 0 →
          joinChat Examples.rooms0 Examples.sockOutsider (ChatRoom 0) r
          = Examples.rooms0 r
          ∧ leaveChat Examples.rooms0 Examples.sockOutsider (ChatRoom 0) r
            = Examples.rooms0 r)
  ∧ (41 ∈ joinChat Examples.rooms0 Examples.sockOutsider (ChatRoom 0)
            (ChatRoom 0)
     ↔ 41 ∈ Examples.rooms0 (ChatRoom 0)).
Proof.
  pose proof (room_membership Examples.rooms0 Examples.sockOutsider (ChatRoom 0))
    as (_ & _ & Hnot & _ & _ & Hother & Hsid).
  split.
  - apply Hnot. vm_compute. intros H. discriminate H.
  - split; [exact Hother|]. apply (proj1 (Hsid 41 ltac:(vm_compute; lia))).
Defined.

(** X18: a socket message is not counted.  A [send-message] to an
    existing well-formed chat adds an unread message for every user but
    the sender and raises nobody's counter; so a two-party chat whose
    counters agreed with its log no longer agrees afterwards. *)
Theorem send_message_desyncs (chats : Chat.Collection) now sock data c :
  chats !! chatId data = Some c →
  Chat.wellFormed c →
  Chat.sendable (content data) →
  ∃ c',
    (sendMessage chats now sock data).1 !! chatId data = Some c'
    ∧ (∀ v, Chat.getUnreadCount v c' = Chat.getUnreadCount v c)
    ∧ (∀ v, v ≠ oid_hex (userId sock) →
            Chat.unseenBy v c' = S (Chat.unseenBy v c))
    ∧ (∀ a b, ChatRoutes.inSync a b c → ¬ ChatRoutes.inSync a b c').
Proof.
  intros Hid Hwf Hs.
  rewrite (sendMessage_existing _ _ _ _ _ Hid Hwf Hs). cbn [fst].
  eexists. split; [apply list_lookup_insert_eq; by eapply lookup_lt_Some|].
  assert (Hunseen : ∀ v, v ≠ oid_hex (userId sock) →
            Chat.unseenBy v
              (Chat.set_messages (Chat.messages c ++ [pushed now sock data]) c)
            = S (Chat.unseenBy v c)).
  { intros v Hv. unfold Chat.set_messages. rewrite unseenBy_pushed.
    unfold Chat.unseen. simpl. rewrite bool_decide_eq_true_2 by done.
    simpl. lia. }
  split; [done|]. split; [exact Hunseen|].
  intros a b (_ & _ & Hne & _ & Ha & Hb) (_ & _ & _ & _ & Ha' & Hb').
  destruct (decide (a = oid_hex (userId sock))) as [Heq | Hneq].
  - assert (Hbv : b ≠ oid_hex (userId sock)) by congruence.
    rewrite (Hunseen b Hbv) in Hb'.
    unfold Chat.getUnreadCount, Chat.set_messages in Hb'. simpl in Hb'.
    unfold Chat.getUnreadCount in Hb. lia.
  - rewrite (Hunseen a Hneq) in Ha'.
    unfold Chat.getUnreadCount, Chat.set_messages in Ha'. simpl in Ha'.
    unfold Chat.getUnreadCount in Ha. lia.
Qed.

Lemma send_message_desyncs_witness :
  let data := mkSendMessage 0 "hello" 2 in
  ∃ c',
    (sendMessage [Examples.chatAB] 9 Examples.sockA data).1 !! 0 = Some c'
    ∧ Chat.getUnreadCount 2 c' = Chat.getUnreadCount 2 Examples.chatAB
    ∧ Chat.unseenBy 2 c' = S (Chat.unseenBy 2 Examples.chatAB)
    ∧ ¬ ChatRoutes.inSync 1 2 c'.
Proof.
  intros data.
  destruct (send_message_desyncs [Examples.chatAB] 9 Examples.sockA data
              Examples.chatAB eq_refl wellFormed_chatAB sendable_hello)
    as (c' & Hid & Hcount & Hunseen & Hsync).
  exists c'. split; [exact Hid|]. split; [apply Hcount|].
  split; [apply Hunseen; vm_compute; lia|].
  apply Hsync. exact inSync_chatAB.
Defined.

(** X19: every connection can listen in.  [join-chat] takes any room
    name from any connection.  A connection that joins the room named
    by a chat id is among the recipients of the [new-message] of every
    successful [send-message] for that chat, and one that joins the
    personal room of a user is among the recipients of the
    [message-notification] meant for that user, unless it is the
    sending connection itself. *)
Theorem join_chat_listens_in (chats : Chat.Collection) rooms now sock spy
    data c :
  chats !! chatId data = Some c →
  Chat.wellFormed c →
  Chat.sendable (content data) →
  ∃ tgMessage evMessage tgNote evNote,
    (sendMessage chats now sock data).2
    = [(tgMessage, evMessage); (tgNote, evNote)]
    ∧ socketId spy
      ∈ recipients (joinChat rooms spy (ChatRoom (chatId data))) tgMessage
    ∧ (socketId spy ≠ socketId sock →
       socketId spy
       ∈ recipients (joinChat rooms spy (UserRoom (receiverId data))) tgNote)
    ∧ socketId sock
      ∉ recipients (joinChat rooms sock (UserRoom (receiverId data))) tgNote.
Proof.
  intros Hid Hwf Hs.
  rewrite (sendMessage_existing _ _ _ _ _ Hid Hwf Hs). cbn [snd].
  eexists _, _, _, _. split; [reflexivity|].
  unfold recipients, joinChat, join. rewrite !decide_True by done.
  split; [by_elements|]. split; [intros Hne; by_elements | by_elements].
Qed.

Lemma join_chat_listens_in_witness :
  let data := mkSendMessage 0 "hello" 2 in
  ∃ tgMessage evMessage tgNote evNote,
    (sendMessage [Examples.chatAB] 9 Examples.sockA data).2
    = [(tgMessage, evMessage); (tgNote, evNote)]
    ∧ 49 ∈ recipients
             (joinChat Examples.rooms0 Examples.sockOutsider (ChatRoom 0))
             tgMessage
    ∧ 49 ∈ recipients
             (joinChat Examples.rooms0 Examples.sockOutsider (UserRoom 2))
             tgNote.
Proof.
  intros data.
  destruct (join_chat_listens_in [Examples.chatAB] Examples.rooms0 9
              Examples.sockA Examples.sockOutsider data Examples.chatAB
              eq_refl wellFormed_chatAB sendable_hello)
    as (tm & em & tn & en & Hout & Hm & Hn & _).
  exists tm, em, tn, en. split; [exact Hout|]. split; [exact Hm|].
  apply Hn. vm_compute. lia.
Defined.

(** A connection stays in a room through every run of joins and
    leaves that does not hold its own leave of that room. *)
Lemma roomRun_stays rooms sock (es : list (Socket.t * RoomOp)) :
  socketId sock ∈ rooms (UserRoom (oid_hex (userId sock))) →
  Forall (λ e, leavesOwnRoom sock e = false) es →
  socketId sock ∈ roomRun rooms es (UserRoom (oid_hex (userId sock))).
Proof.
  intros Hin Hes. unfold roomRun. revert rooms Hin.
  induction Hes as [|[other op] es He _ IH]; intros rooms Hin; [done|].
  cbn [foldl]. apply IH. unfold roomStep. cbn [fst snd].
  unfold leavesOwnRoom in He. cbn [fst snd] in He.
  destruct op as [name | name]; unfold joinChat, leaveChat, join, leave;
    destruct (decide (UserRoom (oid_hex (userId sock)) = name)) as [<-|Hname];
    try done.
  - by_elements.
  - rewrite (bool_decide_eq_true_2
               (UserRoom (oid_hex (userId sock))
                = UserRoom (oid_hex (userId sock)))) in He by done.
    rewrite andb_true_r in He. apply bool_decide_eq_false in He.
    by_elements.
Qed.

(** X20: notifications follow the user's connections.  Once a
    connection is admitted it sits in its user's personal room, and it
    stays there through every sequence of [join-chat] and [leave-chat]
    events, its own and those of other connections, except its own
    [leave-chat] of that very room.  So the [message-notification] of
    every successful [send-message] addressed to that user reaches it,
    unless it is the sending connection. *)
Theorem notification_reaches_connection (chats : Chat.Collection) rooms now
    sock receiver data c (es : list (Socket.t * RoomOp)) :
  chats !! chatId data = Some c →
  Chat.wellFormed c →
  Chat.sendable (content data) →
  receiverId data = oid_hex (userId receiver) →
  socketId receiver ≠ socketId sock →
  Forall (λ e, leavesOwnRoom receiver e = false) es →
  ∃ tgMessage evMessage tgNote preview,
    (sendMessage chats now sock data).2
    = [(tgMessage, evMessage);
       (tgNote,
        message_notification (chatId data) (name (user sock)) preview)]
    ∧ socketId receiver
      ∈ recipients (roomRun (onConnection rooms receiver) es) tgNote.
Proof.
  intros Hid Hwf Hs Hrcv Hne Hes.
  rewrite (sendMessage_existing _ _ _ _ _ Hid Hwf Hs). cbn [snd].
  eexists _, _, _, _. split; [reflexivity|].
  cbn [recipients]. rewrite Hrcv.
  apply elem_of_difference. split.
  - apply roomRun_stays; [|done].
    unfold onConnection, join. rewrite decide_True by done. by_elements.
  - rewrite elem_of_singleton. done.
Qed.

Lemma notification_reaches_connection_witness :
  let data := mkSendMessage 0 "hello" 9 in
  ∃ tgMessage evMessage tgNote preview,
    (sendMessage [Examples.chatAB] 9 Examples.sockA data).2
    = [(tgMessage, evMessage);
       (tgNote, message_notification 0 "Asha" preview)]
    ∧ 49 ∈ recipients
             (roomRun (onConnection Examples.rooms0 Examples.sockOutsider)
                Examples.wandering)
             tgNote.
Proof.
  intros data.
  apply (notification_reaches_connection [Examples.chatAB] Examples.rooms0
           9 Examples.sockA Examples.sockOutsider data Examples.chatAB
           Examples.wandering eq_refl wellFormed_chatAB sendable_hello eq_refl
           ltac:(vm_compute; lia)).
  repeat constructor.
Defined.

(** X21: typing signals stay in the room and skip the sender.  A
    [typing-start] or [typing-stop] goes to the members of the named
    room other than the sending connection: the sender never gets its
    own signal, a connection that left the room or never joined it
    gets none, and a connection that joined gets it. *)
Theorem typing_signal_recipients rooms sock other name :
  let tg1 := (typingStart sock name).1 in
  let tg2 := (typingStop sock name).1 in
  tg1 = tg2
  ∧ (socketId sock ∉ recipients rooms tg1)
  ∧ (socketId other ≠ socketId sock →
     socketId other ∈ recipients (joinChat rooms other name) tg1
     ∧ socketId other ∉ recipients (leaveChat rooms other name) tg1)
  ∧ (∀ sid, sid ∈ recipients rooms tg1 → sid ∈ rooms name).
Proof.
  intros tg1 tg2. subst tg1 tg2. unfold typingStart, typingStop.
  cbn [fst recipients]. unfold joinChat, leaveChat, join, leave.
  rewrite !decide_True by done.
  split; [done|]. split; [by_elements|].
  split; [intros Hne; split; by_elements|]. intros sid. by_elements.
Qed.

Lemma typing_signal_recipients_witness :
  let tg := (typingStart Examples.sockA (ChatRoom 0)).1 in
  49 ∈ recipients (joinChat Examples.rooms0 Examples.sockOutsider (ChatRoom 0))
         tg
  ∧ 49 ∉ recipients
           (leaveChat Examples.rooms0 Examples.sockOutsider (ChatRoom 0)) tg.
Proof.
  intros tg.
  apply (proj1 (proj2 (proj2 (typing_signal_recipients Examples.rooms0
                                Examples.sockA Examples.sockOutsider
                                (ChatRoom 0))))).
  vm_compute. lia.
Defined.

End GatewayMore.

(** * Properties of the display virtuals *)

Section Virtuals.

Local Open Scope Z_scope.

Lemma split_milliseconds (diff : Z) :
  0 < diff →
  let d := diff / (1000 * 60 * 60 * 24) in
  let h := diff `mod` (1000 * 60 * 60 * 24) / (1000 * 60 * 60) in
  let m := diff `mod` (1000 * 60 * 60) / (1000 * 60) in
  0 ≤ d ∧ 0 ≤ h < 24 ∧ 0 ≤ m < 60
  ∧ d * 86400000 + h * 3600000 + m * 60000 ≤ diff
    < d * 86400000 + h * 3600000 + m * 60000 + 60000.
Proof.
  intros Hpos d h m. subst d h m.
  change (1000 * 60 * 60 * 24) with 86400000.
  change (1000 * 60 * 60) with 3600000.
  change (1000 * 60) with 60000.
  assert (Hmm : diff `mod` 3600000 = (diff `mod` 86400000) `mod` 3600000).
  { symmetry. apply Z.mod_mod_divide. exists 24. lia. }
  pose proof (Z.div_mod diff 86400000 ltac:(lia)) as H1.
  pose proof (Z.mod_pos_bound diff 86400000 ltac:(lia)) as B1.
  pose proof (Z.div_mod (diff `mod` 86400000) 3600000 ltac:(lia)) as H2.
  pose proof (Z.mod_pos_bound (diff `mod` 86400000) 3600000 ltac:(lia)) as B2.
  pose proof (Z.div_mod (diff `mod` 3600000) 60000 ltac:(lia)) as H3.
  pose proof (Z.mod_pos_bound (diff `mod` 3600000) 60000 ltac:(lia)) as B3.
  pose proof (Z.mod_pos_bound diff 3600000 ltac:(lia)) as B4.
  rewrite <- Hmm in H2, B2.
  set (d := diff / 86400000) in *.
  set (h := diff `mod` 86400000 / 3600000) in *.
  set (m := diff `mod` 3600000 / 60000) in *.
  lia.
Qed.

(** X23: the pickup countdown.  For a request whose preferred pickup
    time lies ahead, [timeUntilPickup] splits the time left into whole
    days, hours below 24 and minutes below 60, rounding down to the
    minute, and shows days and hours when a day or more is left, hours
    and minutes when an hour or more is left, minutes otherwise. *)
Theorem pickup_countdown (now : nat) r (t : nat) :
  Request.preferredTime (Request.pickupDetails r) = Some t →
  (now < t)%nat →
  ∃ d h m : Z,
    (0 ≤ d ∧ 0 ≤ h < 24 ∧ 0 ≤ m < 60)
    ∧ d * 86400000 + h * 3600000 + m * 60000 ≤ Z.of_nat t - Z.of_nat now
      < d * 86400000 + h * 3600000 + m * 60000 + 60000
    ∧ Request.timeUntilPickup now r
      = Some (if bool_decide (0 < d)
              then pretty d +:+ "d " +:+ pretty h +:+ "h remaining"
              else if bool_decide (0 < h)
              then pretty h +:+ "h " +:+ pretty m +:+ "m remaining"
              else pretty m +:+ "m remaining").
Proof.
  intros Ht Hlt. unfold Request.timeUntilPickup. rewrite Ht.
  set (diff := Z.of_nat t - Z.of_nat now).
  assert (Hpos : 0 < diff) by (subst diff; lia).
  rewrite bool_decide_eq_false_2 by lia.
  destruct (split_milliseconds diff Hpos) as (Hd & Hh & Hm & Hsum).
  eexists _, _, _. split; [by eauto|]. split; [exact Hsum|].
  by repeat case_bool_decide.
Qed.

Lemma pickup_countdown_witness :
  ∃ d h m : Z,
    (0 ≤ d ∧ 0 ≤ h < 24 ∧ 0 ≤ m < 60)
    ∧ d * 86400000 + h * 3600000 + m * 60000 ≤ Z.of_nat 150 - Z.of_nat 100
      < d * 86400000 + h * 3600000 + m * 60000 + 60000
    ∧ Request.timeUntilPickup 100 (Examples.pendingBy 2)
      = Some (if bool_decide (0 < d)
              then pretty d +:+ "d " +:+ pretty h +:+ "h remaining"
              else if bool_decide (0 < h)
              then pretty h +:+ "h " +:+ pretty m +:+ "m remaining"
              else pretty m +:+ "m remaining").
Proof.
  apply (pickup_countdown 100 (Examples.pendingBy 2) 150);
    [reflexivity | lia].
Defined.

(** X24: overdue, and the instant in between.  Without a preferred
    time [timeUntilPickup] is null and [isOverdue] false.  With one,
    [timeUntilPickup] reads "Overdue" from the pickup instant on, while
    [isOverdue] holds only after it: at the exact instant the request
    reads "Overdue" and is not overdue. *)
Theorem overdue_boundary (now : nat) r :
  (Request.preferredTime (Request.pickupDetails r) = None →
   Request.timeUntilPickup now r = None ∧ Request.isOverdue now r = false)
  ∧ (∀ t : nat,
       Request.preferredTime (Request.pickupDetails r) = Some t →
       ((t ≤ now)%nat → Request.timeUntilPickup now r = Some "Overdue")
       ∧ (Request.isOverdue now r = true ↔ (t < now)%nat)
       ∧ (t = now →
          Request.timeUntilPickup now r = Some "Overdue"
          ∧ Request.isOverdue now r = false)).
Proof.
  unfold Request.timeUntilPickup, Request.isOverdue. split.
  - by intros ->.
  - intros t ->. split; [|split].
    + intros Hle. by rewrite bool_decide_eq_true_2 by lia.
    + apply bool_decide_eq_true.
    + intros ->. rewrite bool_decide_eq_true_2 by lia.
      by rewrite bool_decide_eq_false_2 by lia.
Qed.

Lemma overdue_boundary_witness :
  Request.timeUntilPickup 150 (Examples.pendingBy 2) = Some "Overdue"
  ∧ Request.isOverdue 150 (Examples.pendingBy 2) = false
  ∧ Request.timeUntilPickup 151 (Examples.pendingBy 2) = Some "Overdue".
Proof.
  pose proof (proj2 (overdue_boundary 150 (Examples.pendingBy 2)) 150%nat
                eq_refl) as (_ & _ & Hat).
  pose proof (proj2 (overdue_boundary 151 (Examples.pendingBy 2)) 150%nat
                eq_refl) as (Hafter & _).
  split; [apply (proj1 (Hat eq_refl))|].
  split; [apply (proj2 (Hat eq_refl))|]. apply Hafter. lia.
Defined.

(** X25: the pickup window of a listing.  [pickupStatus] is "upcoming"
    before the window starts, "available" from its start to its end,
    both included, and "expired" after; [timeRemaining] reads "Expired"
    from the end of the window on, so at the closing instant of a
    window the listing is "available" with "Expired" time remaining;
    [isExpired] looks at the expiry time alone. *)
Theorem pickup_window (now : nat) f :
  let start := Food.pickupStart (Food.availability f) in
  let end_ := Food.pickupEnd (Food.availability f) in
  (Food.pickupStatus now f = "upcoming" ↔ (now < start)%nat)
  ∧ (Food.pickupStatus now f = "available" ↔ (start ≤ now ≤ end_)%nat)
  ∧ (Food.pickupStatus now f = "expired" ↔ (start ≤ now ∧ end_ < now)%nat)
  ∧ ((end_ ≤ now)%nat → Food.timeRemaining now f = "Expired")
  ∧ (now = end_ → (start ≤ end_)%nat →
     Food.pickupStatus now f = "available"
     ∧ Food.timeRemaining now f = "Expired")
  ∧ (Food.isExpired now f = true
     ↔ (Food.expiryTime (Food.availability f) < now)%nat).
Proof.
  intros start end_. unfold Food.pickupStatus, Food.timeRemaining,
    Food.isExpired. fold start end_.
  split; [|split; [|split; [|split; [|split]]]].
  - repeat case_bool_decide; simpl; split; (done || lia).
  - repeat case_bool_decide; simpl; split; (done || lia).
  - repeat case_bool_decide; simpl; split; (done || lia).
  - intros Hle. by rewrite bool_decide_eq_true_2 by lia.
  - intros -> Hse. rewrite bool_decide_eq_false_2 by lia.
    rewrite !bool_decide_eq_true_2 by lia. done.
  - apply bool_decide_eq_true.
Qed.

Lemma pickup_window_witness :
  Food.timeRemaining 200 Examples.food0 = "Expired"
  ∧ Food.pickupStatus 200 Examples.food0 = "available"
  ∧ Food.timeRemaining 200 Examples.food0 = "Expired".
Proof.
  pose proof (pickup_window 200 Examples.food0)
    as (_ & _ & _ & Hend & Hat & _).
  split; [apply Hend; simpl; lia|]. apply Hat; [reflexivity | simpl; lia].
Defined.

End Virtuals.

(** * Properties of the rate limiter *)

Section RateLimiter.

Import RateLimit.

Variables maxRequests windowMs : nat.

Implicit Types (st : gmap (ObjectId + string) (list nat))
  (k : ObjectId + string) (times : list nat).

Local Abbreviation kept := (RateLimit.kept windowMs).

Lemma rateLimit_unfold st k now :
  rateLimit maxRequests windowMs st k now
  = if bool_decide (maxRequests ≤ length (kept st k now))
    then (match st !! k with
          | Some _ => <[k := kept st k now]> st
          | None => st
          end, TooMany)
    else (<[k := kept st k now ++ [now]]> st, Pass).
Proof.
  unfold rateLimit, RateLimit.kept.
  destruct (st !! k) as [times|] eqn:Hk; simpl.
  - rewrite lookup_insert_eq. simpl. case_bool_decide; [done|].
    by rewrite insert_insert_eq.
  - rewrite Hk. simpl. by case_bool_decide.
Qed.

Lemma rateLimit_stored st k now :
  default [] ((rateLimit maxRequests windowMs st k now).1 !! k)
  = if bool_decide (maxRequests ≤ length (kept st k now))
    then kept st k now else kept st k now ++ [now].
Proof.
  rewrite rateLimit_unfold. case_bool_decide; simpl.
  - unfold RateLimit.kept. destruct (st !! k) as [times|] eqn:Hk; simpl.
    + by rewrite lookup_insert_eq.
    + by rewrite Hk.
  - by rewrite lookup_insert_eq.
Qed.

Lemma rateLimit_other st k now k' :
  k' ≠ k → (rateLimit maxRequests windowMs st k now).1 !! k' = st !! k'.
Proof.
  intros Hne. rewrite rateLimit_unfold. case_bool_decide; simpl.
  - destruct (st !! k); [|done]. by rewrite lookup_insert_ne.
  - by rewrite lookup_insert_ne.
Qed.

Lemma rateLimit_verdict st k now :
  (rateLimit maxRequests windowMs st k now).2
  = if bool_decide (maxRequests ≤ length (kept st k now))
    then TooMany else Pass.
Proof. rewrite rateLimit_unfold. by case_bool_decide. Qed.

(** X26: the verdict is the key's own business.  A request passes
    exactly when fewer than [maxRequests] admitted times of its key are
    younger than the window; a passing request is recorded, a refused
    one is not, so being refused never prolongs the refusal; and no
    request changes what is stored for another key. *)
Theorem rate_limit_verdict st k now :
  let out := rateLimit maxRequests windowMs st k now in
  (out.2 = Pass ↔ length (kept st k now) < maxRequests)
  ∧ (out.2 = Pass → default [] (out.1 !! k) = kept st k now ++ [now])
  ∧ (out.2 = TooMany → default [] (out.1 !! k) = kept st k now)
  ∧ (∀ k', k' ≠ k → out.1 !! k' = st !! k').
Proof.
  intros out. subst out.
  rewrite rateLimit_verdict, rateLimit_stored.
  split; [|split; [|split]].
  - case_bool_decide; split; (done || lia).
  - by case_bool_decide.
  - by case_bool_decide.
  - intros k' Hk'. by apply rateLimit_other.
Qed.

Lemma laterThan_app bound times1 times2 :
  laterThan bound (times1 ++ times2)
  = laterThan bound times1 + laterThan bound times2.
Proof. unfold laterThan. by rewrite List.filter_app, length_app. Qed.

Lemma laterThan_le bound times : laterThan bound times ≤ length times.
Proof. apply List.filter_length_le. Qed.

(** Dropping the times that an earlier bound rules out does not change
    how many are later than [bound]. *)
Lemma laterThan_filter bound0 bound times :
  (bound0 ≤ bound)%Z →
  laterThan bound (List.filter (recent bound0) times)
  = laterThan bound times.
Proof.
  intros Hle. unfold laterThan.
  induction times as [|t times IH]; [done|]. simpl.
  destruct (recent bound0 t) eqn:H0; simpl.
  - destruct (recent bound t); simpl; by rewrite IH.
  - assert (recent bound t = false) as ->; [|done].
    unfold recent in *. apply bool_decide_eq_false.
    apply bool_decide_eq_false in H0. lia.
Qed.

Lemma admitted_snoc k log k0 (now : nat) v :
  admitted k (log ++ [(k0, now, v)])
  = admitted k log
    ++ (if bool_decide (k0 = k) && bool_decide (v = Pass) then [now] else []).
Proof.
  unfold admitted. rewrite omap_app. simpl.
  by destruct (bool_decide (k0 = k) && bool_decide (v = Pass)).
Qed.

Lemma run_invariant events :
  runInvariant maxRequests windowMs events (run maxRequests windowMs events).
Proof.
  induction events as [|[k0 now] events IH] using rev_ind.
  { split; [intros k; simpl; rewrite lookup_empty; simpl; lia|].
    intros k bound _. unfold run. simpl. by rewrite lookup_empty. }
  unfold run in *. rewrite foldl_snoc.
  set (acc := foldl (serve maxRequests windowMs) (∅, []) events) in *.
  destruct IH as [Hlen Hcount]. unfold serve, runInvariant.
  cbn [fst snd]. split.
  - intros k. destruct (decide (k = k0)) as [-> | Hk].
    + rewrite rateLimit_stored. case_bool_decide.
      * unfold RateLimit.kept.
        etrans; [apply List.filter_length_le | apply Hlen].
      * rewrite length_app. simpl. lia.
    + rewrite rateLimit_other by done. apply Hlen.
  - intros k bound Hbound. rewrite admitted_snoc, laterThan_app.
    assert (Hold : ∀ e, e ∈ events →
              (Z.of_nat e.2 - Z.of_nat windowMs ≤ bound)%Z).
    { intros e He. apply Hbound. apply elem_of_app. by left. }
    assert (Hnow : (Z.of_nat now - Z.of_nat windowMs ≤ bound)%Z).
    { apply (Hbound (k0, now)). apply elem_of_app. right. by left. }
    rewrite (Hcount k bound Hold).
    destruct (decide (k0 = k)) as [-> | Hk].
    + rewrite rateLimit_stored, rateLimit_verdict.
      rewrite bool_decide_eq_true_2 by done.
      destruct (bool_decide (maxRequests ≤ length (kept acc.1 k now))); simpl.
      * unfold RateLimit.kept. rewrite laterThan_filter by done.
        unfold laterThan at 2. simpl. lia.
      * rewrite laterThan_app. unfold RateLimit.kept.
        by rewrite laterThan_filter by done.
    + rewrite rateLimit_other by done.
      rewrite (bool_decide_eq_false_2 (k0 = k)) by done. simpl.
      unfold laterThan at 2. simpl. lia.
Qed.

(** X27: the limit holds over every window.  In a run of the limiter
    from an empty [Map], for every key and every instant not earlier
    than the requests served, at most [maxRequests] requests of that
    key were admitted within the [windowMs] before that instant. *)
Theorem rate_limit_window events k (now : nat) :
  (∀ e, e ∈ events → e.2 ≤ now) →
  laterThan (Z.of_nat now - Z.of_nat windowMs)
    (admitted k (run maxRequests windowMs events).2)
  ≤ maxRequests.
Proof.
  intros Hnow. destruct (run_invariant events) as [Hlen Hcount].
  rewrite Hcount.
  - etrans; [apply laterThan_le | apply Hlen].
  - intros e He. specialize (Hnow e He). lia.
Qed.

(** X28: a key seen for the first time always passes.  In a run whose
    requests all come under different keys every request passes, as
    soon as [maxRequests] is not zero.  Two ObjectId objects are
    different keys even when they hold the same id, so requests keyed
    by a user id that is a new object each time are never refused. *)
Theorem fresh_keys_always_pass events :
  0 < maxRequests →
  NoDup events.*1 →
  Forall (λ e, e.2 = Pass) (run maxRequests windowMs events).2
  ∧ length (run maxRequests windowMs events).2 = length events.
Proof.
  intros Hmax.
  assert (Hgen : NoDup events.*1 →
            Forall (λ e, e.2 = Pass) (run maxRequests windowMs events).2
            ∧ length (run maxRequests windowMs events).2 = length events
            ∧ ∀ k, k ∉ events.*1 →
                   (run maxRequests windowMs events).1 !! k = None);
    [|intros Hnd; destruct (Hgen Hnd) as (? & ? & _); done].
  induction events as [|[k0 now] events IH] using rev_ind.
  { intros _. split; [constructor|]. split; [done|].
    intros k _. apply lookup_empty. }
  rewrite fmap_app. simpl. intros [Hnd [Hfresh _]]%NoDup_app.
  destruct (IH Hnd) as (Hall & Hlen & Hnone).
  unfold run in *. rewrite foldl_snoc.
  set (acc := foldl (serve maxRequests windowMs) (∅, []) events) in *.
  assert (Hk0 : acc.1 !! k0 = None).
  { apply Hnone. intros Hin. apply (Hfresh k0 Hin). by left. }
  unfold serve. cbn [fst snd].
  assert (Hpass : (rateLimit maxRequests windowMs acc.1 k0 now).2 = Pass).
  { rewrite rateLimit_verdict. unfold RateLimit.kept. rewrite Hk0. simpl.
    by rewrite bool_decide_eq_false_2 by lia. }
  split; [|split].
  - apply Forall_app. split; [done|]. by apply Forall_singleton.
  - rewrite !length_app. simpl. lia.
  - intros k Hk. rewrite rateLimit_other.
    + apply Hnone. intros Hin. apply Hk. apply elem_of_app. by left.
    + intros ->. apply Hk. apply elem_of_app. right. by left.
Qed.

End RateLimiter.

Lemma rate_limit_verdict_witness :
  let st := (RateLimit.run 2 1000 (take 2 Traffic.fromOneAddress)).1 in
  let out := RateLimit.rateLimit 2 1000 st (inr "10.0.0.1") 200 in
  out.2 = RateLimit.TooMany
  ∧ default [] (out.1 !! inr "10.0.0.1")
    = RateLimit.kept 1000 st (inr "10.0.0.1") 200
  ∧ out.1 !! inr "10.0.0.2" = st !! inr "10.0.0.2"
  ∧ (RateLimit.rateLimit 2 1000 st (inr "10.0.0.1") 1050).2 = RateLimit.Pass.
Proof.
  intros st out.
  pose proof (rate_limit_verdict 2 1000 st (inr "10.0.0.1") 200)
    as (_ & _ & Hmany & Hother).
  pose proof (rate_limit_verdict 2 1000 st (inr "10.0.0.1") 1050)
    as (Hpass & _).
  split; [reflexivity|].
  split; [apply Hmany; reflexivity|].
  split; [apply Hother; discriminate|].
  apply (proj2 Hpass). vm_compute. lia.
Defined.

Lemma rate_limit_window_witness :
  RateLimit.laterThan (Z.of_nat 200 - Z.of_nat 1000)
    (RateLimit.admitted (inr "10.0.0.1")
       (RateLimit.run 2 1000 Traffic.fromOneAddress).2)
  ≤ 2.
Proof.
  apply (rate_limit_window 2 1000 Traffic.fromOneAddress (inr "10.0.0.1") 200).
  apply Forall_forall. refine (bool_decide_unpack _ _). vm_compute. exact I.
Defined.

Lemma fresh_keys_always_pass_witness :
  Forall (λ e, e.2 = RateLimit.Pass)
    (RateLimit.run 1 1000 Traffic.fromOneUser).2
  ∧ length (RateLimit.run 1 1000 Traffic.fromOneUser).2
    = length Traffic.fromOneUser.
Proof.
  apply (fresh_keys_always_pass 1 1000 Traffic.fromOneUser); [lia|].
  refine (bool_decide_unpack _ _). vm_compute. exact I.
Defined.

(** * Properties of the two authentication middlewares *)

Section Authentication.

Import Auth.

Variable verify : string → option nat.

Lemma split_oneWord t : oneWord t = true → split " " t = [t].
Proof.
  induction t as [|a t IH]; simpl; [done|].
  intros [Ha Ht]%andb_prop. apply negb_true_iff in Ha.
  rewrite Ha, (IH Ht). done.
Qed.

Lemma split_bearer t :
  oneWord t = true → split " " ("Bearer " +:+ t) !! 1 = Some t.
Proof.
  intros Ht. change ("Bearer " +:+ t)
    with (String "B" (String "e" (String "a" (String "r" (String "e"
           (String "r" (String " " t))))))).
  cbn [split Ascii.eqb Bool.eqb]. rewrite (split_oneWord t Ht). done.
Qed.

Lemma jwtVerify_Some token id :
  jwtVerify verify token = Some id ↔
  ∃ t, token = Some t ∧ t ≠ "" ∧ verify t = Some id.
Proof.
  unfold jwtVerify. split.
  - destruct token as [t|]; [|done]. case_bool_decide; [done|]. eauto.
  - intros (t & -> & Ht & Hv). rewrite bool_decide_eq_false_2; done.
Qed.

(** X29 ([protect], [io.use]): a request that [protect] lets through
    carries, as the second word of its Authorization header, a non-empty
    token that verifies to a stored, active user; and the gateway's
    handshake admits every connection that presents that token, bound to
    the same user's profile. *)
Theorem protect_implies_handshake users authorization u :
  protect verify users authorization = Proceed u →
  ∃ header t id,
    authorization = Some header
    ∧ String.prefix "Bearer" header = true
    ∧ split " " header !! 1 = Some t
    ∧ t ≠ ""
    ∧ verify t = Some id
    ∧ users !! id = Some u
    ∧ isActive u = true
    ∧ ∀ sid, handshake verify users sid (Some t)
             = inr (Socket.mk sid (profile u)).
Proof.
  unfold protect. intros H.
  destruct authorization as [header|]; [|done].
  destruct (negb (bool_decide (header = "")) && String.prefix "Bearer" header)
    eqn:Hh; [|done].
  apply andb_prop in Hh as [_ Hp].
  destruct (jwtVerify verify (split " " header !! 1)) as [id|] eqn:Hj; [|done].
  apply jwtVerify_Some in Hj as (t & Ht & Hne & Hv).
  destruct (users !! id) as [user|] eqn:Hu; [|done].
  destruct (isActive user) eqn:Ha; [|done].
  simpl in H. injection H as ->.
  exists header, t, id. repeat split; try done.
  intros sid. unfold handshake.
  rewrite bool_decide_eq_false_2 by done. rewrite Hv, Hu. done.
Qed.

(** X30 ([protect], [io.use]): the converse fails on deactivated
    accounts.  With a one-word token that verifies to a stored user whose
    [isActive] is false, [protect] answers 401 "User account is
    deactivated", while the handshake admits the connection as that
    user: it never reads [isActive]. *)
Theorem handshake_admits_deactivated users t id u sid :
  oneWord t = true → t ≠ "" →
  verify t = Some id → users !! id = Some u → isActive u = false →
  protect verify users (Some ("Bearer " +:+ t))
  = Reply 401 "User account is deactivated"
  ∧ handshake verify users sid (Some t) = inr (Socket.mk sid (profile u)).
Proof.
  intros Hw Hne Hv Hu Ha. split.
  - unfold protect.
    replace (negb (bool_decide ("Bearer " +:+ t = ""))
             && String.prefix "Bearer" ("Bearer " +:+ t)) with true
      by (cbn; done).
    rewrite (split_bearer t Hw). unfold jwtVerify.
    rewrite bool_decide_eq_false_2 by done.
    rewrite Hv, Hu, Ha. done.
  - unfold handshake. rewrite bool_decide_eq_false_2 by done.
    rewrite Hv, Hu. done.
Qed.

End Authentication.

Lemma protect_implies_handshake_witness :
  Auth.protect Traffic.verify Traffic.users (Some "Bearer token-of-1")
  = Auth.Proceed (Auth.mkAccount Examples.userA true)
  ∧ Auth.handshake Traffic.verify Traffic.users 41 (Some "token-of-1")
    = inr (Socket.mk 41 Examples.userA).
Proof.
  assert (H : Auth.protect Traffic.verify Traffic.users
                (Some "Bearer token-of-1")
              = Auth.Proceed (Auth.mkAccount Examples.userA true))
    by reflexivity.
  split; [exact H|].
  destruct (protect_implies_handshake Traffic.verify Traffic.users _ _ H)
    as (header & t & id & Hh & _ & Ht & _ & _ & _ & _ & Hs).
  injection Hh as <-. vm_compute in Ht. injection Ht as <-.
  exact (Hs 41).
Defined.

Lemma handshake_admits_deactivated_witness :
  Auth.protect Traffic.verify Traffic.users (Some "Bearer token-of-4")
  = Auth.Reply 401 "User account is deactivated"
  ∧ ∃ s, Auth.handshake Traffic.verify Traffic.users 49 (Some "token-of-4")
         = inr s ∧ Socket.socketId s = 49.
Proof.
  destruct (handshake_admits_deactivated Traffic.verify Traffic.users
              "token-of-4" 4 _ 49 eq_refl ltac:(discriminate) eq_refl
              eq_refl eq_refl) as [Hp Hs].
  split; [exact Hp|]. eexists. split; [exact Hs|reflexivity].
Defined.
